(** * nbconvert/filters/markdown.py: the markdown filters

    A shallow embedding of the filters of [nbconvert.filters.markdown]
    ([markdown2latex], [markdown2html_pandoc], [markdown2asciidoc],
    [markdown2rst] and the [markdown2html] alias) and of the two library
    services the AsciiDoc filter relies on: [re.sub] on its two patterns
    and [packaging.version.Version] on release-only version strings.

    Text is a [string]: a sequence of characters with code points
    U+0000..U+00FF (each [ascii] is one code point). *)

From Stdlib Require Import Bool Arith Lia List NArith.
From Stdlib Require Import Ascii String.
Import ListNotations.

Local Open Scope string_scope.
Local Open Scope list_scope.

Set Implicit Arguments.

(** ** Characters *)

Definition code (c : ascii) : N := N_of_ascii c.

Definition between (lo hi n : N) : bool := (lo <=? n)%N && (n <=? hi)%N.

(** [str.isalnum] on U+0000..U+00FF: ASCII digits and letters, and in the
    Latin-1 supplement the letters, the superscript digits and the vulgar
    fractions. *)
Definition isalnum (c : ascii) : bool :=
  let n := code c in
  between 48 57 n || between 65 90 n || between 97 122 n
  || (n =? 170)%N || (n =? 178)%N || (n =? 179)%N || (n =? 181)%N
  || (n =? 185)%N || (n =? 186)%N || between 188 190 n
  || between 192 214 n || between 216 246 n || between 248 255 n.

(** [\w] of a [str] pattern: alphanumeric or underscore. *)
Definition is_word (c : ascii) : bool := isalnum c || (c =? "_")%char.

Definition newline : ascii := "010"%char.

(** ** Regular expressions: the fragment of [re] the filter uses *)

(** Members of a bracketed character set. *)
Inductive set_item : Type :=
| SWord                       (* \w *)
| SChr (c : ascii)            (* a literal character *)
| SRange (lo hi : ascii).     (* lo-hi *)

Definition charset := list set_item.

Definition in_item (i : set_item) (c : ascii) : bool :=
  match i with
  | SWord => is_word c
  | SChr d => (c =? d)%char
  | SRange lo hi => between (code lo) (code hi) (code c)
  end.

Definition in_set (cs : charset) (c : ascii) : bool :=
  existsb (fun i => in_item i c) cs.

Inductive regex : Type :=
| Lit (c : ascii)              (* a literal character *)
| In (cs : charset)            (* [...] *)
| WordBoundary                 (* \b *)
| Many1 (cs : charset)         (* [...]+, greedy *)
| Group (n : nat) (r : regex)  (* the n-th capturing group *)
| Cat (r1 r2 : regex).         (* concatenation *)

Definition captures := list (nat * string).

Fixpoint group (n : nat) (caps : captures) : string :=
  match caps with
  | [] => ""
  | (m, g) :: caps' => if Nat.eqb m n then g else group n caps'
  end.

(** The first [n] characters of [s]. *)
Fixpoint take (n : nat) (s : string) : string :=
  match n, s with
  | S n', String c s' => String c (take n' s')
  | _, _ => ""
  end.

Definition word_before (prev : option ascii) : bool :=
  match prev with Some c => is_word c | None => false end.

Definition word_after (s : string) : bool :=
  match s with String c _ => is_word c | EmptyString => false end.

Section Matcher.
Variable R : Type.

(** What is left to match after the current regex: called with the
    character before the position reached, the remaining text and the
    groups captured so far. *)
Definition cont := option ascii -> string -> captures -> option R.

(** Greedy [[...]+]: take characters of the set as long as possible and
    give them back one at a time while the rest of the pattern fails. *)
Fixpoint many1 (cs : charset) (s : string) (caps : captures) (k : cont)
  : option R :=
  match s with
  | String c s' =>
      if in_set cs c then
        match many1 cs s' caps k with
        | Some r => Some r
        | None => k (Some c) s' caps
        end
      else None
  | EmptyString => None
  end.

(** Backtracking match of [r] at the start of [s]; [prev] is the
    character before [s] in the whole text, if any. *)
Fixpoint rmatch (r : regex) (prev : option ascii) (s : string)
         (caps : captures) (k : cont) : option R :=
  match r with
  | Lit c =>
      match s with
      | String x s' => if (x =? c)%char then k (Some x) s' caps else None
      | EmptyString => None
      end
  | In cs =>
      match s with
      | String x s' => if in_set cs x then k (Some x) s' caps else None
      | EmptyString => None
      end
  | WordBoundary =>
      if xorb (word_before prev) (word_after s) then k prev s caps else None
  | Many1 cs => many1 cs s caps k
  | Group n r' =>
      rmatch r' prev s caps
        (fun p s' caps' =>
           k p s' ((n, take (length s - length s') s) :: caps'))
  | Cat r1 r2 =>
      rmatch r1 prev s caps (fun p s' caps' => rmatch r2 p s' caps' k)
  end.
End Matcher.

(** A match of [r] at the start of [s]: the groups and the text after the
    match. *)
Definition match_at (r : regex) (prev : option ascii) (s : string)
  : option (captures * string) :=
  rmatch r prev s [] (fun _ rest caps => Some (caps, rest)).

(** Replacement templates: literal characters and group references. *)
Inductive repl_item : Type :=
| RChr (c : ascii)
| RGroup (n : nat).    (* \n *)

Definition template := list repl_item.

Fixpoint expand (t : template) (caps : captures) : string :=
  match t with
  | [] => ""
  | RChr c :: t' => String c (expand t' caps)
  | RGroup n :: t' => group n caps ++ expand t' caps
  end.

(** [re.sub]: scan from the left; where the pattern matches, emit the
    expanded template and go on after the match; elsewhere copy one
    character. [skip] counts the characters of the current match still to
    be passed over. Both patterns of this module consume at least six
    characters, so the rules of [re.sub] for empty matches never apply; an
    empty match is treated as no match. *)
Fixpoint sub_scan (r : regex) (t : template) (skip : nat)
         (prev : option ascii) (s : string) : string :=
  match s with
  | EmptyString => ""
  | String c s' =>
      match skip with
      | S n => sub_scan r t n (Some c) s'
      | O =>
          match match_at r prev s with
          | Some (caps, rest) =>
              match length s - length rest with
              | O => String c (sub_scan r t 0 (Some c) s')
              | S n => expand t caps ++ sub_scan r t n (Some c) s'
              end
          | None => String c (sub_scan r t 0 (Some c) s')
          end
      end
  end.

Definition re_sub (r : regex) (t : template) (s : string) : string :=
  sub_scan r t 0 None s.

(** ** The two patterns of [markdown2asciidoc] *)

Definition seq (rs : list regex) (last : regex) : regex :=
  fold_right Cat last rs.

(** [[\w \n-]] *)
Definition emphasis_set : charset :=
  [SWord; SChr " "; SChr newline; SChr "-"].

(** [[:,.\n\)]] *)
Definition emphasis_end : charset :=
  [SChr ":"; SChr ","; SChr "."; SChr newline; SChr ")"].

(** [\b__([\w \n-]+)__([:,.\n\)])] *)
Definition emphasis_re : regex :=
  seq [WordBoundary; Lit "_"; Lit "_"; Group 1 (Many1 emphasis_set);
       Lit "_"; Lit "_"]
      (Group 2 (In emphasis_end)).

(** [_\1_\2] *)
Definition emphasis_repl : template :=
  [RChr "_"; RGroup 1; RChr "_"; RGroup 2].

(** [[\w\/-:\.]]: inside a set, [\/-:] is the range from [/] to [:]. *)
Definition link_set : charset := [SWord; SRange "/" ":"; SChr "."].

(** [\(__([\w\/-:\.]+)__\)] *)
Definition link_re : regex :=
  seq [Lit "("; Lit "_"; Lit "_"; Group 1 (Many1 link_set);
       Lit "_"; Lit "_"]
      (Lit ")").

(** [(_\1_)] *)
Definition link_repl : template :=
  [RChr "("; RChr "_"; RGroup 1; RChr "_"; RChr ")"].

(** [s.startswith(p)] *)
Fixpoint startswith (p s : string) : bool :=
  match p, s with
  | EmptyString, _ => true
  | String a p', String b s' => (a =? b)%char && startswith p' s'
  | String _ _, EmptyString => false
  end.

(** [needle in hay] on strings. *)
Fixpoint str_in (needle hay : string) : bool :=
  startswith needle hay ||
  match hay with
  | EmptyString => false
  | String _ hay' => str_in needle hay'
  end.

(** The fix-up for pandoc issue 3068 applied to the converter's output. *)
Definition fix_emphasis (asciidoc : string) : string :=
  if str_in "__" asciidoc then
    let asciidoc := re_sub emphasis_re emphasis_repl asciidoc in
    re_sub link_re link_repl asciidoc
  else asciidoc.

(** ** Python values and exceptions *)

Inductive exn : Type :=
| ImportError (msg : string)
| InvalidVersion (msg : string)
| Raised (kind msg : string).   (* any other exception of a collaborator *)

(** A computation returns a value or raises. *)
Definition result (A : Type) : Type := (exn + A)%type.

(** [xs or default] for an optional list argument: [None] and the empty
    list are falsy. *)
Definition or_list (A : Type) (xs : option (list A)) (default : list A)
  : list A :=
  match xs with
  | Some (x :: xs') => x :: xs'
  | Some [] => default
  | None => default
  end.

(** Truth value of an optional string: [None] and [""] are falsy. *)
Definition truthy (s : option string) : bool :=
  match s with
  | Some (String _ _) => true
  | Some EmptyString => false
  | None => false
  end.

(** ** [packaging.version.Version] on release-only versions

    The version strings [get_pandoc_version] yields are dotted decimal
    numbers. [Version] is modelled on that fragment of PEP 440: the release
    segment [N(.N)*]. Strings with an epoch, a pre-, post-, dev- or local
    part are outside the fragment and are rejected here. *)

Record version : Type := mkVersion { release : list N }.

Definition is_digit (c : ascii) : bool := between 48 57 (code c).

(** [int(s)] for a non-empty string of ASCII digits. *)
Fixpoint int_digits (acc : N) (s : string) : option N :=
  match s with
  | EmptyString => Some acc
  | String c s' =>
      if is_digit c then int_digits (10 * acc + (code c - 48))%N s'
      else None
  end.

Definition int_of (s : string) : option N :=
  match s with
  | EmptyString => None
  | _ => int_digits 0 s
  end.

(** [s.split(".")], with the current piece accumulated in [cur]. *)
Fixpoint split_dots (cur : string) (s : string) : list string :=
  match s with
  | EmptyString => [cur]
  | String c s' =>
      if (c =? ".")%char then cur :: split_dots "" s'
      else split_dots (cur ++ String c "")%string s'
  end.

Fixpoint ints_of (parts : list string) : option (list N) :=
  match parts with
  | [] => Some []
  | p :: parts' =>
      match int_of p, ints_of parts' with
      | Some n, Some ns => Some (n :: ns)
      | _, _ => None
      end
  end.

Definition Version (s : string) : result version :=
  match ints_of (split_dots "" s) with
  | Some rel => inr (mkVersion rel)
  | None => inl (InvalidVersion s)
  end.

Fixpoint dropwhile_zero (l : list N) : list N :=
  match l with
  | 0%N :: l' => dropwhile_zero l'
  | _ => l
  end.

(** The release part of [_cmpkey]: trailing zeros removed. *)
Definition cmpkey (v : version) : list N :=
  rev (dropwhile_zero (rev (release v))).

(** Tuple comparison. *)
Fixpoint tuple_compare (a b : list N) : comparison :=
  match a, b with
  | [], [] => Eq
  | [], _ :: _ => Lt
  | _ :: _, [] => Gt
  | x :: a', y :: b' =>
      match (x ?= y)%N with
      | Eq => tuple_compare a' b'
      | c => c
      end
  end.

(** [a >= b] *)
Definition Version_ge (a b : version) : bool :=
  match tuple_compare (cmpkey a) (cmpkey b) with
  | Lt => false
  | _ => true
  end.

(** [a > b] *)
Definition Version_gt (a b : version) : bool :=
  match tuple_compare (cmpkey a) (cmpkey b) with
  | Gt => true
  | _ => false
  end.

(** ** The converter and the filters *)

(** One invocation of [convert_pandoc]. *)
Record call : Type := mkCall {
  call_source : string;
  call_from : string;
  call_to : string;
  call_extra_args : option (list string)
}.

(** Filters run against a log of the converter invocations made so far. *)
Definition M (A : Type) : Type := list call -> result A * list call.

Definition ret (A : Type) (a : A) : M A := fun log => (inr a, log).

Definition bind (A B : Type) (m : M A) (k : A -> M B) : M B :=
  fun log =>
    match m log with
    | (inr a, log') => k a log'
    | (inl e, log') => (inl e, log')
    end.

Definition lift (A : Type) (r : result A) : M A := fun log => (r, log).

Notation "x <- m ;; k" := (bind m (fun x => k))
  (at level 61, m at next level, right associativity).

Definition _MARKDOWN_FMT : string :=
  "markdown+lists_without_preceding_blankline".

Section Filters.
(** What the external converter answers to an invocation: its output,
    or the exception [convert_pandoc] raises. *)
Variable pandoc : call -> result string.

(** What [get_pandoc_version()] returns: a version string or [None],
    unless it raises. *)
Variable get_pandoc_version : result (option string).

(** Modelled from the spec: [convert_pandoc] of [nbconvert.filters.pandoc],
    which is not among the sources. One invocation of the external
    converter on the source text with the reader format, the writer format
    and the extra arguments; it returns the converter's output or raises. *)
Definition convert_pandoc (source from_format to_format : string)
           (extra_args : option (list string)) : M string :=
  fun log =>
    let c := mkCall source from_format to_format extra_args in
    (pandoc c, log ++ [c]).

(** [markup] is [None] when the caller leaves it at its default. *)
Definition markdown2latex (source : string) (markup : option string)
           (extra_args : option (list string)) : M string :=
  let markup :=
    match markup with Some m => m | None => _MARKDOWN_FMT end in
  convert_pandoc source markup "latex" extra_args.

Definition markdown2html_pandoc (source : string)
           (extra_args : option (list string)) : M string :=
  let extra_args := or_list extra_args ["--mathjax"] in
  convert_pandoc source _MARKDOWN_FMT "html" (Some extra_args).

(** The heading flag for the installed converter. *)
Definition atx_args_for (pandoc_version : option string)
  : result (list string) :=
  let atx_args := ["--atx-headers"] in
  if truthy pandoc_version then
    match pandoc_version with
    | Some pv =>
        match Version pv with
        | inl e => inl e
        | inr v =>
            match Version "3.0" with
            | inl e => inl e
            | inr v3 =>
                if Version_ge v v3 then inr ["--markdown-headings=atx"]
                else inr atx_args
            end
        end
    | None => inr atx_args
    end
  else inr atx_args.

Definition markdown2asciidoc (source : string)
           (extra_args : option (list string)) : M string :=
  pandoc_version <- lift get_pandoc_version ;;
  atx_args <- lift (atx_args_for pandoc_version) ;;
  let extra_args := or_list extra_args atx_args in
  asciidoc <- convert_pandoc source _MARKDOWN_FMT "asciidoc"
                (Some extra_args) ;;
  ret (fix_emphasis asciidoc).

Definition markdown2rst (source : string)
           (extra_args : option (list string)) : M string :=
  convert_pandoc source _MARKDOWN_FMT "rst" extra_args.
End Filters.

(** ** Loading the module *)

(** The names the module binds at load time that depend on whether
    [markdown_mistune] could be imported. *)
Record markdown_module : Type := mkModule {
  markdown2html_mistune : string -> result string;
  markdown2html : string -> result string
}.

(** The stub defined when mistune is unavailable; [str(e)] of an
    [ImportError] is its message. *)
Definition mistune_stub (_mistune_import_error : string) (source : string)
  : result string :=
  let msg :=
    ("markdown2html requires mistune: " ++ _mistune_import_error)%string in
  inl (ImportError msg).

(** Executing the module body, given the outcome of
    [from .markdown_mistune import markdown2html_mistune]. Only
    [ImportError] is caught. *)
Definition load_module (mistune : result (string -> result string))
  : result markdown_module :=
  match mistune with
  | inr f => inr (mkModule f f)
  | inl (ImportError reason) =>
      let f := mistune_stub reason in inr (mkModule f f)
  | inl e => inl e
  end.

(** ** Vocabulary of the properties *)

Definition v3_0 : version := mkVersion [3%N; 0%N].

(** The log of converter invocations after running [m]. *)
Definition invocations (A : Type) (m : M A) (log : list call) : list call :=
  snd (m log).

Definition asciidoc_call (source : string) (extra_args : list string)
  : call :=
  mkCall source _MARKDOWN_FMT "asciidoc" (Some extra_args).

(** The converter, invoked the way [markdown2asciidoc] invokes it, answers
    [out]. *)
Definition converts_to (pandoc : call -> result string)
           (pv : option string) (source : string)
           (extra_args : option (list string)) (out : string) : Prop :=
  exists flags,
    atx_args_for pv = inr flags /\
    pandoc (asciidoc_call source (or_list extra_args flags)) = inr out.

(** What [markdown2asciidoc] returns or raises. *)
Definition asciidoc_of (pandoc : call -> result string)
           (pv : option string) (source : string)
           (extra_args : option (list string)) : result string :=
  fst (markdown2asciidoc pandoc (inr pv) source extra_args []).

(** The two substitutions of the fix-up, one at a time. *)
Definition sub_emphasis (s : string) : string :=
  re_sub emphasis_re emphasis_repl s.

Definition sub_link (s : string) : string := re_sub link_re link_repl s.

(** Every character of [s] is in the set. *)
Fixpoint all_in (cs : charset) (s : string) : bool :=
  match s with
  | EmptyString => true
  | String c s' => in_set cs c && all_in cs s'
  end.

Fixpoint last_char (s : string) : option ascii :=
  match s with
  | EmptyString => None
  | String c s' =>
      match last_char s' with
      | Some d => Some d
      | None => Some c
      end
  end.

(** The character before the position reached after reading [s]. *)
Definition prev_after (prev : option ascii) (s : string) : option ascii :=
  match last_char s with
  | Some c => Some c
  | None => prev
  end.

(** Whether an occurrence of [lit] in [u ++ v] starts inside [u]. *)
Fixpoint starts_in (lit u v : string) : bool :=
  match u with
  | EmptyString => false
  | String _ u' => startswith lit (u ++ v)%string || starts_in lit u' v
  end.

(** Whether [__] and a closing character of the emphasis pattern come
    next. *)
Definition emphasis_closes (s : string) : bool :=
  match s with
  | String a (String b (String t _)) =>
      (a =? "_")%char && (b =? "_")%char && in_set emphasis_end t
  | _ => false
  end.

(** What remains of the emphasis pattern after its first group, which
    started at [s0]. *)
Definition emphasis_tail (s0 : string) : cont (captures * string) :=
  fun _ s1 caps' =>
    if emphasis_closes s1 then
      match s1 with
      | String _ (String _ (String t rest)) =>
          Some ((2, String t "") :: (1, take (length s0 - length s1) s0)
                  :: caps', rest)
      | _ => None
      end
    else None.

(** [s] without its underscores. *)
Fixpoint strip_underscores (s : string) : string :=
  match s with
  | EmptyString => EmptyString
  | String c s' =>
      if (c =? "_")%char then strip_underscores s'
      else String c (strip_underscores s')
  end.

(** Whether every [__] of [s] directly follows a word character; [prev]
    is the character before [s]. *)
Fixpoint dunders_follow_word (prev : option ascii) (s : string) : bool :=
  match s with
  | EmptyString => true
  | String c s' =>
      (negb (startswith "__" s) || word_before prev)
      && dunders_follow_word (Some c) s'
  end.

(** The characters of a dotted decimal number. *)
Definition version_chars : charset := [SRange "0" "9"; SChr "."].


(** Whether a longer group of the emphasis pattern is closed further on:
    some non-empty run of characters of its set at the start of [s] is
    followed by [__] and a closing character. *)
Fixpoint closes_later (s : string) : bool :=
  match s with
  | EmptyString => false
  | String c s' =>
      in_set emphasis_set c && (emphasis_closes s' || closes_later s')
  end.


(** [removes P prev s out]: [out] is [s] without some of its underscores,
    each of them removable, by [P], between the character before it and
    the text after it. *)
Inductive removes (P : option ascii -> string -> bool)
  : option ascii -> string -> string -> Prop :=
| removes_nil (prev : option ascii) :
    removes P prev EmptyString EmptyString
| removes_keep (prev : option ascii) (c : ascii) (s out : string) :
    removes P (Some c) s out ->
    removes P prev (String c s) (String c out)
| removes_drop (prev : option ascii) (s out : string) :
    P prev s = true ->
    removes P (Some "_"%char) s out ->
    removes P prev (String "_" s) out.

(** Whether no underscore of [w], placed after [prev] and before [v], is
    removable. *)
Fixpoint kept (P : option ascii -> string -> bool) (prev : option ascii)
         (w v : string) : bool :=
  match w with
  | EmptyString => true
  | String c w' =>
      (negb (c =? "_")%char || negb (P prev (w' ++ v)%string))
      && kept P (Some c) w' v
  end.

(** Whether no match of the link pattern, at whatever position of [s],
    has [__] inside its group. *)
Fixpoint link_groups_plain (s : string) : bool :=
  match s with
  | EmptyString => true
  | String _ s' =>
      match match_at link_re None s with
      | Some (caps, _) => negb (str_in "__" (group 1 caps))
      | None => true
      end
      && link_groups_plain s'
  end.

(** [thins s out]: [out] is [s] without some of its underscores. *)
Inductive thins : string -> string -> Prop :=
| thins_nil : thins EmptyString EmptyString
| thins_keep (c : ascii) (s out : string) :
    thins s out -> thins (String c s) (String c out)
| thins_drop (s out : string) :
    thins s out -> thins (String "_" s) out.

(** [n] underscores. *)
Fixpoint underscores (n : nat) : string :=
  match n with
  | O => EmptyString
  | S n' => String "_" (underscores n')
  end.

(** * Properties *)

Unset Implicit Arguments.

(** ** Versions *)

Lemma Version_3_0 : Version "3.0" = inr v3_0.
Proof. reflexivity. Qed.

Lemma Version_nonempty (s : string) (v : version) :
  Version s = inr v -> truthy (Some s) = true.
Proof. destruct s; [discriminate | reflexivity]. Qed.

Lemma dropwhile_zero_snoc (l : list N) (m : N) :
  dropwhile_zero (l ++ [m]) =
  match dropwhile_zero l with
  | [] => dropwhile_zero [m]
  | d => d ++ [m]
  end.
Proof.
  induction l as [|x l IH]; [reflexivity|].
  destruct x; simpl; [exact IH | reflexivity].
Qed.

Lemma cmpkey_cons (m : N) (rest : list N) :
  cmpkey (mkVersion (m :: rest)) =
  match cmpkey (mkVersion rest) with
  | [] => if (m =? 0)%N then [] else [m]
  | r => m :: r
  end.
Proof.
  unfold cmpkey; simpl release. simpl rev at 2.
  rewrite dropwhile_zero_snoc.
  destruct (dropwhile_zero (rev rest)) as [|d ds] eqn:E.
  - destruct m; reflexivity.
  - rewrite rev_app_distr. simpl.
    destruct (rev ds ++ [d]) eqn:E'; [|reflexivity].
    destruct (rev ds); discriminate.
Qed.

(** Against 3.0 only the major number of a release counts. *)
Lemma Version_ge_3_0_major (m : N) (rest : list N) :
  Version_ge (mkVersion (m :: rest)) v3_0 = (3 <=? m)%N.
Proof.
  unfold Version_ge. rewrite cmpkey_cons.
  change (cmpkey v3_0) with [3%N].
  destruct (cmpkey (mkVersion rest)) as [|r rs]; simpl.
  - destruct (N.eqb_spec m 0) as [->|Hm]; [reflexivity|].
    simpl. destruct (N.compare_spec m 3) as [->|H|H]; simpl;
      symmetry; [reflexivity | apply N.leb_gt; lia | apply N.leb_le; lia].
  - destruct (N.compare_spec m 3) as [->|H|H]; simpl;
      symmetry; [reflexivity | apply N.leb_gt; lia | apply N.leb_le; lia].
Qed.

(** ** Which converter invocation a filter makes *)

Lemma markdown2asciidoc_run pandoc (pv : option string)
      (flags : list string) source extra_args log :
  atx_args_for pv = inr flags ->
  markdown2asciidoc pandoc (inr pv) source extra_args log =
  let c := asciidoc_call source (or_list extra_args flags) in
  (match pandoc c with
   | inr out => inr (fix_emphasis out)
   | inl e => inl e
   end, log ++ [c]).
Proof.
  intros H. unfold markdown2asciidoc, bind, lift, convert_pandoc, ret.
  rewrite H. cbv zeta. unfold asciidoc_call.
  destruct (pandoc _); reflexivity.
Qed.

Lemma atx_args_for_version (s : string) (v : version) :
  Version s = inr v ->
  atx_args_for (Some s) =
  inr (if Version_ge v v3_0 then ["--markdown-headings=atx"]
       else ["--atx-headers"]).
Proof.
  intros H. unfold atx_args_for.
  rewrite (Version_nonempty _ _ H), H, Version_3_0.
  destruct (Version_ge v v3_0); reflexivity.
Qed.

(** C1: with no extra arguments, [markdown2asciidoc] invokes the converter
    with [--atx-headers] when the reported pandoc version is "2.9" or any
    version below 3.0, or is absent or empty, and with
    [--markdown-headings=atx] when it is "3.0" or any version from 3.0 on;
    for a release [major.rest] the flag is decided by [major] alone. *)
Theorem markdown2asciidoc_heading_flag :
  forall (pandoc : call -> result string) (source : string)
         (log : list call),
    let invoked_with pv flag :=
      invocations (markdown2asciidoc pandoc (inr pv) source None) log =
      log ++ [asciidoc_call source [flag]] in
    invoked_with (Some "2.9") "--atx-headers" /\
    (forall s v, Version s = inr v -> Version_ge v v3_0 = false ->
                 invoked_with (Some s) "--atx-headers") /\
    invoked_with (Some "3.0") "--markdown-headings=atx" /\
    (forall s v, Version s = inr v -> Version_ge v v3_0 = true ->
                 invoked_with (Some s) "--markdown-headings=atx") /\
    (forall s major rest,
        Version s = inr (mkVersion (major :: rest)) ->
        invoked_with (Some s)
          (if (3 <=? major)%N then "--markdown-headings=atx"
           else "--atx-headers")) /\
    invoked_with None "--atx-headers" /\
    invoked_with (Some "") "--atx-headers".
Proof.
  intros pandoc source log invoked_with. unfold invoked_with, invocations.
  assert (Hv : forall s v, Version s = inr v ->
             snd (markdown2asciidoc pandoc (inr (Some s)) source None log) =
             log ++ [asciidoc_call source
                       (if Version_ge v v3_0 then ["--markdown-headings=atx"]
                        else ["--atx-headers"])]).
  { intros s v H.
    rewrite (@markdown2asciidoc_run pandoc _ _ source None log
               (@atx_args_for_version _ _ H)).
    destruct (Version_ge v v3_0); reflexivity. }
  repeat split.
  - exact (Hv "2.9" _ eq_refl).
  - intros s v H Hlt. rewrite (Hv s v H), Hlt. reflexivity.
  - exact (Hv "3.0" _ eq_refl).
  - intros s v H Hge. rewrite (Hv s v H), Hge. reflexivity.
  - intros s major rest H. rewrite (Hv s _ H), Version_ge_3_0_major.
    destruct (3 <=? major)%N; reflexivity.
  - rewrite (@markdown2asciidoc_run pandoc None ["--atx-headers"]);
      reflexivity.
  - rewrite (@markdown2asciidoc_run pandoc (Some "") ["--atx-headers"]);
      reflexivity.
Qed.

Lemma markdown2asciidoc_heading_flag_witness :
  invocations (markdown2asciidoc (fun _ => inr "= Title")
                 (inr (Some "2.19.2")) "# Title" None) [] =
  [asciidoc_call "# Title" ["--atx-headers"]] /\
  invocations (markdown2asciidoc (fun _ => inr "= Title")
                 (inr (Some "3.1.11")) "# Title" None) [] =
  [asciidoc_call "# Title" ["--markdown-headings=atx"]] /\
  invocations (markdown2asciidoc (fun _ => inr "= Title")
                 (inr (Some "10.0")) "# Title" None) [] =
  [asciidoc_call "# Title" ["--markdown-headings=atx"]].
Proof.
  destruct (markdown2asciidoc_heading_flag (fun _ => inr "= Title")
              "# Title" []) as (_ & Hlow & _ & Hhigh & Hmajor & _).
  split; [|split].
  - apply (Hlow "2.19.2" (mkVersion [2; 19; 2]%N)); reflexivity.
  - apply (Hhigh "3.1.11" (mkVersion [3; 1; 11]%N)); reflexivity.
  - apply (Hmajor "10.0" 10%N [0%N]). reflexivity.
Defined.

Lemma cmpkey_pair (a b : N) :
  cmpkey (mkVersion [a; b]) =
  if (b =? 0)%N then (if (a =? 0)%N then [] else [a]) else [a; b].
Proof. destruct a, b; reflexivity. Qed.

(** Two-part versions are ordered by their numbers, major first. *)
Lemma Version_order_pair (a b c d : N) :
  (Version_gt (mkVersion [a; b]) (mkVersion [c; d]) = true <->
   (c < a \/ (c = a /\ d < b))%N) /\
  (Version_ge (mkVersion [a; b]) (mkVersion [c; d]) = true <->
   (c < a \/ (c = a /\ d <= b))%N).
Proof.
  unfold Version_gt, Version_ge. rewrite !cmpkey_pair.
  destruct (N.eqb_spec b 0) as [->|Hb], (N.eqb_spec a 0) as [->|Ha],
    (N.eqb_spec d 0) as [->|Hd], (N.eqb_spec c 0) as [->|Hc];
    cbn [tuple_compare];
    repeat match goal with
      | |- context [(?x ?= ?y)%N] => destruct (N.compare_spec x y)
      end;
    split; split; intros; try discriminate; try reflexivity; try lia.
Qed.

(** C5: versions are compared as tuples of numbers, not as text. "10.0",
    "3.0" and "2.9" are read as (10, 0), (3, 0) and (2, 9); two-part
    versions are ordered by their numbers, major first, so "10.0" is
    greater than "3.0" and "3.0" greater than "2.9" and not the other way
    round, although "10.0" sorts before "3.0" as a string. In
    [markdown2asciidoc] the flag of a release [major.rest] is
    [--markdown-headings=atx] exactly when [major] is at least 3: "10.0"
    and "3.0" select it, "2.9" selects [--atx-headers]. *)
Theorem version_comparison_is_semantic :
  forall (pandoc : call -> result string) (source : string)
         (log : list call),
    let invoked_with s flag :=
      invocations (markdown2asciidoc pandoc (inr (Some s)) source None) log =
      log ++ [asciidoc_call source [flag]] in
    (Version "10.0" = inr (mkVersion [10; 0]%N) /\
     Version "3.0" = inr (mkVersion [3; 0]%N) /\
     Version "2.9" = inr (mkVersion [2; 9]%N)) /\
    (forall a b c d : N,
        (Version_gt (mkVersion [a; b]) (mkVersion [c; d]) = true <->
         (c < a \/ (c = a /\ d < b))%N) /\
        (Version_ge (mkVersion [a; b]) (mkVersion [c; d]) = true <->
         (c < a \/ (c = a /\ d <= b))%N)) /\
    (Version_gt (mkVersion [10; 0]%N) (mkVersion [3; 0]%N) = true /\
     Version_gt (mkVersion [3; 0]%N) (mkVersion [10; 0]%N) = false /\
     Version_gt (mkVersion [3; 0]%N) (mkVersion [2; 9]%N) = true /\
     Version_gt (mkVersion [2; 9]%N) (mkVersion [3; 0]%N) = false) /\
    String.ltb "10.0" "3.0" = true /\
    (forall s major rest,
        Version s = inr (mkVersion (major :: rest)) ->
        invoked_with s
          (if (3 <=? major)%N then "--markdown-headings=atx"
           else "--atx-headers")) /\
    invoked_with "10.0" "--markdown-headings=atx" /\
    invoked_with "3.0" "--markdown-headings=atx" /\
    invoked_with "2.9" "--atx-headers".
Proof.
  intros pandoc source log invoked_with. unfold invoked_with.
  assert (Hm : forall s major rest,
             Version s = inr (mkVersion (major :: rest)) ->
             invocations
               (markdown2asciidoc pandoc (inr (Some s)) source None) log =
             log ++ [asciidoc_call source
                       [if (3 <=? major)%N then "--markdown-headings=atx"
                        else "--atx-headers"]]).
  { intros s major rest H. unfold invocations.
    rewrite (@markdown2asciidoc_run pandoc _ _ source None log
               (@atx_args_for_version _ _ H)).
    rewrite Version_ge_3_0_major. destruct (3 <=? major)%N; reflexivity. }
  split; [repeat split|]. split; [exact Version_order_pair|].
  split; [repeat split|]. split; [reflexivity|]. split; [exact Hm|].
  split; [|split].
  - exact (Hm "10.0" 10%N [0%N] eq_refl).
  - exact (Hm "3.0" 3%N [0%N] eq_refl).
  - exact (Hm "2.9" 2%N [9%N] eq_refl).
Qed.

Lemma version_comparison_is_semantic_witness :
  invocations (markdown2asciidoc (fun _ => inr "= T")
                 (inr (Some "12.3.1")) "# T" None) [] =
  [asciidoc_call "# T" ["--markdown-headings=atx"]] /\
  invocations (markdown2asciidoc (fun _ => inr "= T")
                 (inr (Some "2.19.2")) "# T" None) [] =
  [asciidoc_call "# T" ["--atx-headers"]].
Proof.
  destruct (version_comparison_is_semantic (fun _ => inr "= T") "# T" [])
    as (_ & _ & _ & _ & Hm & _).
  split.
  - apply (Hm "12.3.1" 12%N [3; 1]%N). reflexivity.
  - apply (Hm "2.19.2" 2%N [19; 2]%N). reflexivity.
Defined.

(** C6: [markdown2html_pandoc] without extra arguments invokes the
    converter with exactly [--mathjax]; with a non-empty list of extra
    arguments it invokes it with exactly that list. *)
Theorem markdown2html_pandoc_extra_args :
  forall (pandoc : call -> result string) (source : string)
         (log : list call),
    (let c := mkCall source _MARKDOWN_FMT "html" (Some ["--mathjax"]) in
     markdown2html_pandoc pandoc source None log = (pandoc c, log ++ [c])) /\
    (forall extra_args : list string,
        extra_args <> [] ->
        let c := mkCall source _MARKDOWN_FMT "html" (Some extra_args) in
        markdown2html_pandoc pandoc source (Some extra_args) log =
        (pandoc c, log ++ [c])).
Proof.
  intros pandoc source log. split; [reflexivity|].
  intros [|a extra_args] H; [congruence | reflexivity].
Qed.

Lemma markdown2html_pandoc_extra_args_witness :
  markdown2html_pandoc (fun _ => inr "<p>x</p>") "x"
    (Some ["--no-highlight"; "--katex"]) [] =
  (inr "<p>x</p>",
   [mkCall "x" _MARKDOWN_FMT "html" (Some ["--no-highlight"; "--katex"])]).
Proof.
  apply (proj2 (markdown2html_pandoc_extra_args (fun _ => inr "<p>x</p>")
                  "x" []) ["--no-highlight"; "--katex"]).
  discriminate.
Defined.

(** C7: when importing mistune raises [ImportError], loading the module
    succeeds, and [markdown2html] is a stub that raises, on every source,
    an [ImportError] whose message ends with the reason of the failed
    import. *)
Theorem markdown2html_without_mistune :
  forall reason : string,
  exists m : markdown_module,
    load_module (inl (ImportError reason)) = inr m /\
    forall source : string,
      markdown2html m source =
      inl (ImportError
             ("markdown2html requires mistune: " ++ reason)%string).
Proof.
  intros reason. eexists. split; [reflexivity|]. intros source. reflexivity.
Qed.

(** C8, counterexample: [markdown2latex] called with a [markup] invokes
    the converter with that reader format, not with
    [markdown+lists_without_preceding_blankline]. *)
Lemma markdown2latex_reader_format_replaceable :
  exists c,
    invocations
      (markdown2latex (fun _ => inr "x") "# T" (Some "commonmark")
         (Some ["--wrap=none"])) [] = [c] /\
    call_from c = "commonmark" /\
    call_from c <> "markdown+lists_without_preceding_blankline".
Proof. eexists. repeat split. discriminate. Qed.

(** C8, amended: [markdown2rst], and [markdown2latex] when its [markup]
    parameter is left at its default, invoke the converter exactly once,
    reading [markdown+lists_without_preceding_blankline], writing "rst"
    and "latex", with the caller's extra arguments as given, and return
    what the converter returns. A [markup] given to [markdown2latex] is
    the reader format of that one invocation instead. *)
Theorem markdown2latex_markdown2rst_reader_format :
  forall (pandoc : call -> result string) (source : string)
         (extra_args : option (list string)) (log : list call),
    (let c := mkCall source "markdown+lists_without_preceding_blankline"
                "latex" extra_args in
     markdown2latex pandoc source None extra_args log =
     (pandoc c, log ++ [c])) /\
    (forall markup : string,
        let c := mkCall source markup "latex" extra_args in
        markdown2latex pandoc source (Some markup) extra_args log =
        (pandoc c, log ++ [c])) /\
    (let c := mkCall source "markdown+lists_without_preceding_blankline"
                "rst" extra_args in
     markdown2rst pandoc source extra_args log = (pandoc c, log ++ [c])).
Proof. intros. repeat split. Qed.

(** C10: an explicitly empty list of extra arguments behaves as no extra
    arguments: [markdown2html_pandoc] passes [--mathjax] and
    [markdown2asciidoc] passes the heading flag selected by the version. *)
Theorem empty_extra_args_is_default :
  forall (pandoc : call -> result string)
         (get_pandoc_version : result (option string))
         (source : string) (log : list call),
    markdown2html_pandoc pandoc source (Some []) log =
    markdown2html_pandoc pandoc source None log /\
    invocations (markdown2html_pandoc pandoc source (Some [])) log =
    log ++ [mkCall source _MARKDOWN_FMT "html" (Some ["--mathjax"])] /\
    markdown2asciidoc pandoc get_pandoc_version source (Some []) log =
    markdown2asciidoc pandoc get_pandoc_version source None log /\
    (forall pv flags,
        get_pandoc_version = inr pv -> atx_args_for pv = inr flags ->
        invocations
          (markdown2asciidoc pandoc get_pandoc_version source (Some []))
          log = log ++ [asciidoc_call source flags]).
Proof.
  intros pandoc gpv source log. repeat split.
  intros pv flags -> H. unfold invocations.
  rewrite (@markdown2asciidoc_run pandoc _ _ source (Some []) log H).
  reflexivity.
Qed.

Lemma empty_extra_args_is_default_witness :
  invocations
    (markdown2asciidoc (fun _ => inr "text") (inr (Some "3.2"))
       "text" (Some [])) [] =
  [asciidoc_call "text" ["--markdown-headings=atx"]].
Proof.
  apply (proj2 (proj2 (proj2
           (empty_extra_args_is_default (fun _ => inr "text")
              (inr (Some "3.2")) "text" [])))
           (Some "3.2") ["--markdown-headings=atx"]); reflexivity.
Defined.

(** ** Strings *)

Local Open Scope string_scope.

Lemma append_assoc (a b c : string) : (a ++ b) ++ c = a ++ (b ++ c).
Proof. induction a as [|x a IH]; simpl; [reflexivity | now rewrite IH]. Qed.

Lemma append_nil_r (a : string) : a ++ "" = a.
Proof. induction a as [|x a IH]; simpl; [reflexivity | now rewrite IH]. Qed.

Lemma length_append (a b : string) : length (a ++ b) = length a + length b.
Proof. induction a as [|x a IH]; simpl; [reflexivity | now rewrite IH]. Qed.

Lemma take_append (a b : string) : take (length a) (a ++ b) = a.
Proof. induction a as [|x a IH]; simpl; [now destruct b | now rewrite IH]. Qed.

Lemma take_matched (a b : string) :
  take (length (a ++ b) - length b) (a ++ b) = a.
Proof.
  rewrite length_append.
  replace (length a + length b - length b) with (length a) by lia.
  apply take_append.
Qed.

Lemma prev_after_cons prev c s :
  prev_after prev (String c s) = prev_after (Some c) s.
Proof. unfold prev_after. simpl. destruct (last_char s); reflexivity. Qed.

Lemma last_char_append (a b : string) :
  last_char (a ++ b) =
  match last_char b with Some c => Some c | None => last_char a end.
Proof.
  induction a as [|x a IH]; simpl.
  - destruct (last_char b); reflexivity.
  - rewrite IH. destruct (last_char b); reflexivity.
Qed.

(** ** The matcher on greedy repetition *)

Section Many1.
Variable R : Type.
Variables (cs : charset) (caps : captures) (k : cont R).

Lemma many1_sound (s : string) (r : R) :
  many1 cs s caps k = Some r ->
  exists g s' p,
    s = g ++ s' /\ g <> "" /\ all_in cs g = true /\
    k p s' caps = Some r.
Proof.
  induction s as [|c s IH]; simpl; [discriminate|].
  destruct (in_set cs c) eqn:Hc; [|discriminate].
  destruct (many1 cs s caps k) as [r0|] eqn:E.
  - intros [= <-]. destruct (IH eq_refl) as (g & s' & p & -> & _ & Hg & Hk).
    exists (String c g), s', p. simpl. rewrite Hc, Hg.
    repeat split; [discriminate | exact Hk].
  - intros Hk. exists (String c ""), s, (Some c). simpl. rewrite Hc.
    repeat split; [discriminate | exact Hk].
Qed.

(** The longest repetition after which the rest of the pattern matches
    is the one chosen. *)
Lemma many1_longest (g s' : string) (r : R) :
  g <> "" -> all_in cs g = true ->
  (forall p, k p s' caps = Some r) ->
  (forall g2 s2 p, g2 <> "" -> all_in cs g2 = true -> s' = g2 ++ s2 ->
                   k p s2 caps = None) ->
  many1 cs (g ++ s') caps k = Some r.
Proof.
  intros Hne Hg Hk Hmax. induction g as [|c g IH]; [congruence|].
  simpl in *. apply andb_prop in Hg as [Hc Hg]. rewrite Hc.
  destruct g as [|d g].
  - simpl. destruct (many1 cs s' caps k) as [r0|] eqn:E; [|apply Hk].
    apply many1_sound in E as (g2 & s2 & p & E1 & E2 & E3 & E4).
    rewrite (Hmax g2 s2 p E2 E3 E1) in E4. discriminate.
  - rewrite IH; [reflexivity | discriminate | exact Hg].
Qed.

Lemma many1_ext (k2 : cont R) (s : string) :
  (forall p s' c, k p s' c = k2 p s' c) ->
  many1 cs s caps k = many1 cs s caps k2.
Proof.
  intros H. induction s as [|c s IH]; simpl; [reflexivity|].
  rewrite IH, H. reflexivity.
Qed.

Lemma many1_none (s : string) :
  (forall g s' p, g <> "" -> all_in cs g = true -> s = g ++ s' ->
                  k p s' caps = None) ->
  many1 cs s caps k = None.
Proof.
  intros H. destruct (many1 cs s caps k) as [r|] eqn:E; [|reflexivity].
  apply many1_sound in E as (g & s' & p & E1 & E2 & E3 & E4).
  rewrite (H g s' p E2 E3 E1) in E4. discriminate.
Qed.
End Many1.

(** ** Matches of the emphasis pattern *)

Lemma underscore_is_word : is_word "_" = true.
Proof. reflexivity. Qed.

Lemma emphasis_end_not_word (t : ascii) :
  in_set emphasis_end t = true -> is_word t = false.
Proof.
  unfold in_set, emphasis_end. cbn [existsb in_item]. intros H.
  repeat (apply orb_prop in H as [H|H];
          [apply Ascii.eqb_eq in H as ->; reflexivity|]).
  discriminate.
Qed.

Lemma emphasis_end_not_underscore (t : ascii) :
  in_set emphasis_end t = true -> (t =? "_")%char = false.
Proof.
  destruct (Ascii.eqb_spec t "_") as [->|]; [discriminate | reflexivity].
Qed.

Lemma emphasis_match_unfold (prev : option ascii) (s0 : string) :
  match_at emphasis_re prev ("__" ++ s0) =
  if word_before prev then None
  else many1 emphasis_set s0 [] (emphasis_tail s0).
Proof.
  unfold match_at, emphasis_re, seq. cbn [fold_right rmatch].
  simpl append. cbn [word_after]. rewrite underscore_is_word.
  destruct (word_before prev); simpl xorb; cbv iota; [reflexivity|].
  change (("_" =? "_")%char) with true. cbv iota.
  apply many1_ext. intros p s1 c. unfold emphasis_tail, emphasis_closes.
  destruct s1 as [|a [|b [|t rest]]]; try reflexivity.
  - destruct (a =? "_")%char; reflexivity.
  - destruct (a =? "_")%char; [|reflexivity].
    destruct (b =? "_")%char; reflexivity.
  - destruct (a =? "_")%char; [|reflexivity].
    destruct (b =? "_")%char; [|reflexivity].
    cbn [andb]. destruct (in_set emphasis_end t); [|reflexivity].
    change (String t rest) with (String t "" ++ rest) at 1 2.
    rewrite (take_matched (String t "") rest). reflexivity.
Qed.

Lemma startswith_split (p s : string) :
  startswith p s = true -> exists s', s = p ++ s'.
Proof.
  revert s. induction p as [|a p IH]; intros s H.
  - exists s. reflexivity.
  - destruct s as [|b s]; [discriminate|]. simpl in H.
    apply andb_prop in H as [Hab H]. apply Ascii.eqb_eq in Hab as ->.
    destruct (IH _ H) as [s' ->]. exists s'. reflexivity.
Qed.

Lemma startswith_append (p s : string) : startswith p (p ++ s) = true.
Proof.
  induction p as [|a p IH]; simpl; [reflexivity|].
  rewrite Ascii.eqb_refl. exact IH.
Qed.

Lemma emphasis_needs_underscores (prev : option ascii) (s : string) :
  startswith "__" s = false -> match_at emphasis_re prev s = None.
Proof.
  intros H. unfold match_at, emphasis_re, seq. cbn [fold_right rmatch].
  destruct (xorb _ _); [|reflexivity].
  destruct s as [|a [|b s]]; try reflexivity; simpl in H.
  - destruct (Ascii.eqb_spec a "_"); reflexivity.
  - destruct (Ascii.eqb_spec a "_") as [->|]; [|reflexivity].
    destruct (Ascii.eqb_spec b "_") as [->|]; [discriminate | reflexivity].
Qed.

Lemma emphasis_closes_split (s : string) :
  emphasis_closes s = true ->
  exists t rest, s = "__" ++ String t rest /\ in_set emphasis_end t = true.
Proof.
  destruct s as [|a [|b [|t rest]]]; try discriminate. simpl.
  intros H. apply andb_prop in H as [H Ht]. apply andb_prop in H as [Ha Hb].
  apply Ascii.eqb_eq in Ha as ->. apply Ascii.eqb_eq in Hb as ->.
  exists t, rest. split; [reflexivity | exact Ht].
Qed.

Lemma emphasis_closes_intro (t : ascii) (rest : string) :
  in_set emphasis_end t = true ->
  emphasis_closes ("__" ++ String t rest) = true.
Proof. intros H. cbn [emphasis_closes append]. rewrite H. reflexivity. Qed.

(** A match of the emphasis pattern starts at a word boundary and reads
    [__], a non-empty group over [[\w \n-]], [__] and a closing character;
    its replacement is the group between single underscores and the closing
    character. *)
Lemma emphasis_match_sound (prev : option ascii) (s : string)
      (caps : captures) (rest : string) :
  match_at emphasis_re prev s = Some (caps, rest) ->
  word_before prev = false /\
  exists g t,
    s = "__" ++ g ++ "__" ++ String t rest /\ g <> "" /\
    all_in emphasis_set g = true /\ in_set emphasis_end t = true /\
    expand emphasis_repl caps = "_" ++ g ++ "_" ++ String t "".
Proof.
  intros H.
  destruct (startswith "__" s) eqn:Hs;
    [|rewrite (emphasis_needs_underscores _ _ Hs) in H; discriminate].
  apply startswith_split in Hs as [s0 ->].
  rewrite emphasis_match_unfold in H.
  destruct (word_before prev); [discriminate|]. split; [reflexivity|].
  apply many1_sound in H as (g & s1 & p & -> & Hne & Hg & Hk).
  unfold emphasis_tail in Hk.
  destruct (emphasis_closes s1) eqn:Hc; [|discriminate].
  apply emphasis_closes_split in Hc as (t & rest' & -> & Ht).
  simpl in Hk. injection Hk as <- <-.
  exists g, t. repeat split; try assumption.
  change (String "_" (String "_" (String t rest')))
    with ("__" ++ String t rest').
  rewrite take_matched. reflexivity.
Qed.

(** The emphasis pattern matches [__g__t] at a word boundary when no
    longer group is closed further on. *)
Lemma emphasis_match_complete (prev : option ascii) (g : string)
      (t : ascii) (rest : string) :
  word_before prev = false ->
  g <> "" -> all_in emphasis_set g = true ->
  in_set emphasis_end t = true ->
  (forall g2 s2, g2 <> "" -> all_in emphasis_set g2 = true ->
                 "__" ++ String t rest = g2 ++ s2 ->
                 emphasis_closes s2 = false) ->
  exists caps,
    match_at emphasis_re prev ("__" ++ g ++ "__" ++ String t rest) =
    Some (caps, rest) /\
    expand emphasis_repl caps = "_" ++ g ++ "_" ++ String t "".
Proof.
  intros Hp Hne Hg Ht Hmax.
  exists [(2, String t ""); (1, g)]%list. split; [|reflexivity].
  rewrite emphasis_match_unfold, Hp.
  apply many1_longest; try assumption.
  - intros p. unfold emphasis_tail.
    rewrite (emphasis_closes_intro t rest Ht), take_matched. reflexivity.
  - intros g2 s2 p H1 H2 H3. unfold emphasis_tail.
    rewrite (Hmax g2 s2 H1 H2 H3). reflexivity.
Qed.

Lemma link_needs_paren (prev : option ascii) (s : string) :
  startswith "(__" s = false -> match_at link_re prev s = None.
Proof.
  intros H. unfold match_at, link_re, seq. cbn [fold_right rmatch].
  destruct s as [|a [|b [|c s]]]; try reflexivity; simpl in H.
  - destruct (Ascii.eqb_spec a "("); reflexivity.
  - destruct (Ascii.eqb_spec a "(") as [->|]; [|reflexivity].
    destruct (Ascii.eqb_spec b "_"); reflexivity.
  - destruct (Ascii.eqb_spec a "(") as [->|]; [|reflexivity].
    destruct (Ascii.eqb_spec b "_") as [->|]; [|reflexivity].
    destruct (Ascii.eqb_spec c "_") as [->|]; [discriminate | reflexivity].
Qed.

(** A match of the link pattern reads [(__], a non-empty group over
    [[\w\/-:\.]] and [__)]; its replacement is the group between single
    underscores, in parentheses. *)
Lemma link_match_sound (prev : option ascii) (s : string) (caps : captures)
      (rest : string) :
  match_at link_re prev s = Some (caps, rest) ->
  exists g,
    s = "(__" ++ g ++ "__)" ++ rest /\ g <> "" /\
    all_in link_set g = true /\
    expand link_repl caps = "(_" ++ g ++ "_)".
Proof.
  unfold match_at, link_re, seq. cbn [fold_right rmatch]. intros H.
  destruct s as [|a [|b [|c s0]]];
    repeat match type of H with
      | None = Some _ => discriminate H
      | (if ?e then _ else _) = Some _ =>
          destruct e eqn:?; [cbv beta iota in H | discriminate H]
      end.
  apply many1_sound in H as (g & s1 & p & -> & Hne & Hg & Hk).
  cbv beta in Hk.
  destruct s1 as [|x [|y [|z s2]]];
    repeat match type of Hk with
      | None = Some _ => discriminate Hk
      | (if ?e then _ else _) = Some _ =>
          destruct e eqn:?; [cbv beta iota in Hk | discriminate Hk]
      end.
  injection Hk as Hc Hr. rewrite Hr in *. clear Hr s2. subst caps.
  repeat match goal with
         | E : (_ =? _)%char = true |- _ => apply Ascii.eqb_eq in E; subst
         end.
  exists g. repeat split; try assumption.
  change (String "_" (String "_" (String ")" rest))) with ("__)" ++ rest).
  rewrite take_matched. reflexivity.
Qed.

(** ** Scanning *)

Section Scan.
Variables (r : regex) (t : template).

Lemma sub_scan_skip (m : string) :
  forall prev rest,
    sub_scan r t (length m) prev (m ++ rest) =
    sub_scan r t 0 (prev_after prev m) rest.
Proof.
  induction m as [|c m IH]; intros prev rest; [reflexivity|].
  rewrite prev_after_cons. simpl. apply IH.
Qed.

Lemma sub_scan_match (prev : option ascii) (m rest : string)
      (caps : captures) :
  m <> "" ->
  match_at r prev (m ++ rest) = Some (caps, rest) ->
  sub_scan r t 0 prev (m ++ rest) =
  expand t caps ++ sub_scan r t 0 (prev_after prev m) rest.
Proof.
  intros Hm H. destruct m as [|c m]; [congruence|].
  rewrite prev_after_cons, <- sub_scan_skip.
  change (sub_scan r t 0 prev (String c m ++ rest)) with
    (match match_at r prev (String c m ++ rest) with
     | Some (caps, rest') =>
         match length (String c m ++ rest) - length rest' with
         | O => String c (sub_scan r t 0 (Some c) (m ++ rest))
         | S n => expand t caps ++ sub_scan r t n (Some c) (m ++ rest)
         end
     | None => String c (sub_scan r t 0 (Some c) (m ++ rest))
     end).
  rewrite H, length_append.
  replace (length (String c m) + length rest - length rest)
    with (S (length m))
    by (change (length (String c m)) with (S (length m)); lia).
  reflexivity.
Qed.

Lemma sub_scan_nomatch (prev : option ascii) (c : ascii) (s : string) :
  match_at r prev (String c s) = None ->
  sub_scan r t 0 prev (String c s) = String c (sub_scan r t 0 (Some c) s).
Proof. intros H. simpl. rewrite H. reflexivity. Qed.

(** Every match of [r] starts with the text [lit]. *)
Variable lit : string.
Hypothesis needs_lit :
  forall prev s, startswith lit s = false -> match_at r prev s = None.

Lemma sub_scan_prefix (u : string) :
  forall prev v,
    starts_in lit u v = false ->
    sub_scan r t 0 prev (u ++ v) =
    u ++ sub_scan r t 0 (prev_after prev u) v.
Proof.
  induction u as [|c u IH]; intros prev v H; [reflexivity|].
  cbn [starts_in] in H. apply orb_false_elim in H as [H1 H2].
  rewrite prev_after_cons. cbn [append].
  rewrite sub_scan_nomatch by (apply needs_lit; exact H1).
  rewrite (IH _ _ H2). reflexivity.
Qed.

Lemma str_in_append (u v : string) :
  str_in lit (u ++ v) = starts_in lit u v || str_in lit v.
Proof.
  induction u as [|c u IH]; [reflexivity|].
  cbn [append str_in starts_in]. rewrite IH, orb_assoc. reflexivity.
Qed.

(** Without an occurrence of [lit] nothing is replaced. *)
Lemma sub_scan_id (s : string) (prev : option ascii) :
  str_in lit s = false -> sub_scan r t 0 prev s = s.
Proof.
  intros H. rewrite <- (append_nil_r s) in H.
  rewrite str_in_append in H. apply orb_false_elim in H as [H _].
  rewrite <- (append_nil_r s) at 1.
  rewrite (sub_scan_prefix _ prev _ H), append_nil_r.
  destruct s; reflexivity.
Qed.
End Scan.

(** ** Where the literal parts of the patterns can start *)

Lemma str_in_cons (lit : string) (c : ascii) (s : string) :
  str_in lit (String c s) = false ->
  startswith lit (String c s) = false /\ str_in lit s = false.
Proof. cbn [str_in]. apply orb_false_elim. Qed.

Lemma str_in_suffix (lit a b : string) :
  str_in lit (a ++ b) = false -> str_in lit b = false.
Proof.
  rewrite str_in_append. intros H. apply orb_false_elim in H. apply H.
Qed.

Lemma str_in_occurrence (lit a b : string) :
  str_in lit (a ++ lit ++ b) = true.
Proof.
  induction a as [|c a IH]; cbn [append].
  - pose proof (startswith_append lit b) as H.
    destruct (lit ++ b); cbn [str_in]; rewrite H; reflexivity.
  - cbn [str_in]. rewrite IH. apply orb_true_r.
Qed.

Lemma last_char_cons_cons (c d : ascii) (s : string) :
  last_char (String c (String d s)) = last_char (String d s).
Proof. cbn [last_char]. destruct (last_char s); reflexivity. Qed.

Lemma not_word_not_underscore (c : ascii) :
  is_word c = false -> (c =? "_")%char = false.
Proof.
  destruct (Ascii.eqb_spec c "_") as [->|]; [discriminate | reflexivity].
Qed.

(** In text without [__] that does not end in a word character, no [__]
    starts, whatever follows. *)
Lemma no_underscores_start (pre w : string) :
  str_in "__" pre = false -> word_before (last_char pre) = false ->
  starts_in "__" pre w = false.
Proof.
  induction pre as [|c pre IH]; intros H Hl; [reflexivity|].
  apply str_in_cons in H as [H1 H2]. cbn [starts_in].
  destruct pre as [|d pre].
  - cbn in Hl. cbn [append startswith starts_in].
    rewrite Ascii.eqb_sym, (not_word_not_underscore _ Hl). reflexivity.
  - rewrite last_char_cons_cons in Hl. rewrite (IH H2 Hl), orb_false_r.
    cbn [append startswith] in *. rewrite andb_true_r in H1.
    destruct ("_" =? c)%char; [|reflexivity].
    destruct ("_" =? d)%char; [discriminate | reflexivity].
Qed.


Lemma no_paren_start (u v : string) :
  str_in "(" u = false -> starts_in "(__" u v = false.
Proof.
  induction u as [|c u IH]; intros H; [reflexivity|].
  apply str_in_cons in H as [H1 H2]. cbn [starts_in].
  rewrite (IH H2), orb_false_r.
  cbn [append startswith] in *. rewrite andb_true_r in H1. rewrite H1.
  reflexivity.
Qed.

Lemma str_in_char_append (c : ascii) (a b : string) :
  str_in (String c "") (a ++ b) =
  str_in (String c "") a || str_in (String c "") b.
Proof.
  induction a as [|x a IH]; [reflexivity|].
  cbn [append str_in startswith]. rewrite IH, orb_assoc. reflexivity.
Qed.

Lemma all_in_excludes (cs : charset) (c : ascii) (g : string) :
  all_in cs g = true -> in_set cs c = false ->
  str_in (String c "") g = false.
Proof.
  intros Hg Hc. induction g as [|x g IH]; [reflexivity|].
  cbn [all_in] in Hg. apply andb_prop in Hg as [Hx Hg].
  cbn [str_in startswith]. rewrite (IH Hg), orb_false_r, andb_true_r.
  destruct (Ascii.eqb_spec c x) as [->|]; [congruence | reflexivity].
Qed.

Lemma no_underscores_no_paren_underscores (s : string) :
  str_in "__" s = false -> str_in "(__" s = false.
Proof.
  induction s as [|c s IH]; intros H; [reflexivity|].
  apply str_in_cons in H as [H1 H2]. cbn [str_in].
  rewrite (IH H2), orb_false_r.
  change (startswith "(__" (String c s))
    with (("(" =? c)%char && startswith "__" s).
  destruct s as [|d s]; [apply andb_false_r|].
  apply str_in_cons in H2 as [H2 _]. rewrite H2. apply andb_false_r.
Qed.

(** The replacement of an emphasis match holds no open parenthesis. *)
Lemma emphasis_replacement_no_paren (g : string) (t : ascii) :
  all_in emphasis_set g = true -> in_set emphasis_end t = true ->
  str_in "(" ("_" ++ g ++ "_" ++ String t "") = false.
Proof.
  intros Hg Ht.
  rewrite 2 str_in_char_append,
    (@all_in_excludes emphasis_set "(" g Hg eq_refl).
  assert (Ht' : ("(" =? t)%char = false)
    by (destruct (Ascii.eqb_spec "(" t) as [<-|];
        [discriminate | reflexivity]).
  cbn [append str_in startswith]. rewrite Ht'. reflexivity.
Qed.

(** ** The two substitutions *)

(** Only the word-boundary test looks at the character before a match. *)
Lemma emphasis_scan_prev (p q : option ascii) (s : string) :
  word_before p = word_before q ->
  sub_scan emphasis_re emphasis_repl 0 p s =
  sub_scan emphasis_re emphasis_repl 0 q s.
Proof.
  intros H. destruct s as [|c s]; [reflexivity|]. cbn [sub_scan].
  replace (match_at emphasis_re p (String c s))
    with (match_at emphasis_re q (String c s)); [reflexivity|].
  unfold match_at, emphasis_re, seq. cbn [fold_right rmatch].
  rewrite H. reflexivity.
Qed.

Lemma link_scan_prev (p q : option ascii) (s : string) :
  sub_scan link_re link_repl 0 p s = sub_scan link_re link_repl 0 q s.
Proof. destruct s as [|c s]; reflexivity. Qed.

Lemma sub_emphasis_id (s : string) (prev : option ascii) :
  str_in "__" s = false ->
  sub_scan emphasis_re emphasis_repl 0 prev s = s.
Proof. apply sub_scan_id. intros p s'. apply emphasis_needs_underscores. Qed.

Lemma sub_link_id (s : string) (prev : option ascii) :
  str_in "(__" s = false -> sub_scan link_re link_repl 0 prev s = s.
Proof. apply sub_scan_id. intros p s'. apply link_needs_paren. Qed.

(** The guard on [__] only saves work. *)
Lemma fix_emphasis_eq (s : string) : fix_emphasis s = sub_link (sub_emphasis s).
Proof.
  unfold fix_emphasis, sub_link, sub_emphasis, re_sub.
  destruct (str_in "__" s) eqn:H; [reflexivity|].
  rewrite (sub_emphasis_id s None H).
  rewrite (sub_link_id s None (no_underscores_no_paren_underscores s H)).
  reflexivity.
Qed.

(** After [__g] the group cannot be extended: the closing character is
    outside the group's set, or no [__] follows. *)
Lemma emphasis_longest (t : ascii) (post : string) :
  in_set emphasis_end t = true ->
  in_set emphasis_set t = false \/ str_in "__" post = false ->
  forall g2 s2, g2 <> "" -> all_in emphasis_set g2 = true ->
                "__" ++ String t post = g2 ++ s2 ->
                emphasis_closes s2 = false.
Proof.
  intros Ht Hor g2 s2 Hne Hg2 E.
  pose proof (emphasis_end_not_underscore _ Ht) as Hu.
  destruct g2 as [|a [|b [|c g3]]]; [congruence| | |]; cbn [append] in E.
  - injection E as <- <-. cbn [emphasis_closes].
    destruct post; [reflexivity|]. rewrite Hu, andb_false_r. reflexivity.
  - injection E as <- <- <-. cbn [emphasis_closes].
    destruct post as [|x [|y post]]; try reflexivity. rewrite Hu. reflexivity.
  - injection E as <- <- <- E.
    cbn [all_in] in Hg2. rewrite !andb_true_iff in Hg2.
    destruct Hg2 as (_ & _ & Hc & _).
    destruct Hor as [Hn | Hpost]; [congruence|].
    destruct (emphasis_closes s2) eqn:Hc2; [|reflexivity].
    apply emphasis_closes_split in Hc2 as (t' & rest & -> & _).
    rewrite E in Hpost.
    change ("__" ++ String t' rest) with ("__" ++ (String t' rest)) in Hpost.
    rewrite str_in_occurrence in Hpost. discriminate.
Qed.

(** The emphasis substitution at the first [__] of the text. *)
Lemma sub_emphasis_first (prev : option ascii) (pre g : string) (t : ascii)
      (post : string) :
  str_in "__" pre = false -> word_before (last_char pre) = false ->
  word_before prev = false ->
  g <> "" -> all_in emphasis_set g = true ->
  in_set emphasis_end t = true ->
  in_set emphasis_set t = false \/ str_in "__" post = false ->
  sub_scan emphasis_re emphasis_repl 0 prev
    (pre ++ "__" ++ g ++ "__" ++ String t post) =
  pre ++ "_" ++ g ++ "_" ++
  String t (sub_scan emphasis_re emphasis_repl 0 None post).
Proof.
  intros Hpre Hl Hp Hne Hg Ht Hor.
  rewrite (@sub_scan_prefix emphasis_re emphasis_repl "__"
             emphasis_needs_underscores pre prev _
             (no_underscores_start pre _ Hpre Hl)).
  f_equal.
  assert (Hb : word_before (prev_after prev pre) = false).
  { unfold prev_after. destruct (last_char pre); assumption. }
  destruct (@emphasis_match_complete _ g t post Hb Hne Hg Ht
              (emphasis_longest t post Ht Hor)) as (caps & Hm & He).
  set (m := "__" ++ g ++ "__" ++ String t "").
  assert (Em : "__" ++ g ++ "__" ++ String t post = m ++ post).
  { unfold m. cbn [append]. rewrite append_assoc. reflexivity. }
  rewrite Em in Hm |- *.
  rewrite (sub_scan_match emphasis_re emphasis_repl (prev_after prev pre)
             m post caps); [|discriminate | exact Hm].
  rewrite He. cbn [append]. f_equal. rewrite append_assoc. f_equal.
  cbn [append]. f_equal. f_equal.
  apply emphasis_scan_prev.
  assert (Hlast : last_char m = Some t)
    by (unfold m; rewrite !last_char_append; reflexivity).
  unfold prev_after. rewrite Hlast. apply emphasis_end_not_word, Ht.
Qed.

(** The emphasis substitution introduces no [__] at the start. *)
Lemma sub_emphasis_no_new_start (p : option ascii) (s : string) :
  startswith "__" s = false ->
  startswith "__" (sub_scan emphasis_re emphasis_repl 0 p s) = false.
Proof.
  intros H. destruct s as [|d s]; [reflexivity|].
  rewrite sub_scan_nomatch by (apply emphasis_needs_underscores; exact H).
  cbn [startswith] in *. destruct ("_" =? d)%char; [|reflexivity].
  cbn [andb] in *. destruct s as [|e s]; [reflexivity|].
  rewrite sub_scan_nomatch.
  - cbn [startswith]. exact H.
  - apply emphasis_needs_underscores. cbn [startswith].
    rewrite andb_true_r in H. rewrite H. reflexivity.
Qed.

(** Nor any [(__] anywhere. *)
Lemma sub_emphasis_keeps_no_paren (n : nat) :
  forall s prev,
    length s <= n -> str_in "(__" s = false ->
    str_in "(__" (sub_scan emphasis_re emphasis_repl 0 prev s) = false.
Proof.
  induction n as [|n IH]; intros s prev Hn H.
  - destruct s; [reflexivity | simpl in Hn; lia].
  - destruct s as [|c s]; [reflexivity|].
    destruct (match_at emphasis_re prev (String c s)) as [[caps rest]|] eqn:E.
    + destruct (emphasis_match_sound _ _ _ _ E)
        as (_ & g & t & Es & Hne & Hg & Ht & He).
      set (m := "__" ++ g ++ "__" ++ String t "").
      assert (Em : String c s = m ++ rest).
      { rewrite Es. unfold m. cbn [append]. rewrite append_assoc.
        reflexivity. }
      rewrite Em in E, H, Hn |- *.
      rewrite (sub_scan_match emphasis_re emphasis_repl prev m rest caps);
        [|discriminate | exact E].
      rewrite He, str_in_append.
      rewrite (no_paren_start _ _ (emphasis_replacement_no_paren g t Hg Ht)).
      apply IH; [|exact (str_in_suffix _ _ _ H)].
      rewrite length_append in Hn. unfold m in Hn. cbn [append length] in Hn.
      lia.
    + rewrite sub_scan_nomatch by exact E.
      apply str_in_cons in H as [H1 H2]. cbn [str_in].
      rewrite (IH s (Some c)); [|simpl in Hn; lia | exact H2].
      rewrite orb_false_r.
      change (startswith "(__" (String c s))
        with (("(" =? c)%char && startswith "__" s) in H1.
      change (("(" =? c)%char &&
              startswith "__" (sub_scan emphasis_re emphasis_repl 0
                                 (Some c) s) = false).
      destruct ("(" =? c)%char; [|reflexivity].
      apply sub_emphasis_no_new_start, H1.
Qed.

Lemma markdown2asciidoc_returns pandoc pv source extra_args out :
  converts_to pandoc pv source extra_args out ->
  asciidoc_of pandoc pv source extra_args = inr (fix_emphasis out).
Proof.
  intros (flags & Hf & Hout). unfold asciidoc_of.
  rewrite (markdown2asciidoc_run pandoc pv flags source extra_args [] Hf).
  cbv zeta. rewrite Hout. reflexivity.
Qed.

(** ** The fix-up of [markdown2asciidoc] *)

(** C2: on the converter output [(__some/path-1__)] the filter returns the
    text as it is. The hyphen is not in the set of the link pattern, whose
    [\/-:] is the range of slash, the digits and colon, so no match of the
    link pattern holds a hyphen; the same path without the hyphen is
    rewritten. *)
Theorem link_with_hyphen_not_rewritten :
  asciidoc_of (fun _ => inr "(__some/path-1__)") None "text" None =
  inr "(__some/path-1__)" /\
  in_set link_set "-" = false /\
  (forall c, in_set [SRange "/" ":"] c = true <->
             c = "/"%char \/ is_digit c = true \/ c = ":"%char) /\
  asciidoc_of (fun _ => inr "(__some/path1__)") None "text" None =
  inr "(_some/path1_)" /\
  (forall prev s caps rest,
      match_at link_re prev s = Some (caps, rest) ->
      exists g, s = "(__" ++ g ++ "__)" ++ rest /\ str_in "-" g = false).
Proof.
  split; [reflexivity|]. split; [reflexivity|]. split; [|split].
  - intros c. split.
    + unfold in_set, is_digit, between. cbn [existsb in_item].
      rewrite orb_false_r. unfold between. intros H.
      destruct c as [[] [] [] [] [] [] [] []]; try discriminate H; auto.
    + intros [-> | [H | ->]]; try reflexivity.
      destruct c as [[] [] [] [] [] [] [] []]; try discriminate H;
        reflexivity.
  - reflexivity.
  - intros prev s caps rest H.
    destruct (link_match_sound prev s caps rest H) as (g & Es & _ & Hg & _).
    exists g. split; [exact Es|].
    apply (all_in_excludes link_set "-" g Hg). reflexivity.
Qed.

Lemma link_with_hyphen_not_rewritten_witness :
  exists g,
    "(__a/b.c__) and more" = "(__" ++ g ++ "__)" ++ " and more" /\
    str_in "-" g = false.
Proof.
  apply (proj2 (proj2 (proj2 (proj2 link_with_hyphen_not_rewritten)))
           None "(__a/b.c__) and more" [(1, "a/b.c")]%list " and more").
  reflexivity.
Defined.




(** C9, counterexample: on [(__a__.b__)] the order of the two
    substitutions matters. *)
Lemma substitutions_do_not_commute :
  sub_link (sub_emphasis "(__a__.b__)") = "(_a_.b__)" /\
  sub_emphasis (sub_link "(__a__.b__)") = "(_a__.b_)" /\
  sub_link (sub_emphasis "(__a__.b__)") <>
  sub_emphasis (sub_link "(__a__.b__)").
Proof. repeat split; try reflexivity. discriminate. Qed.

(** * Further properties of the filters *)

Local Open Scope list_scope.

Lemma atx_args_for_nonempty (pv : option string) (flags : list string) :
  atx_args_for pv = inr flags -> flags <> [].
Proof.
  unfold atx_args_for. destruct (truthy pv); [|intros [= <-]; discriminate].
  destruct pv as [s|]; [|intros [= <-]; discriminate].
  destruct (Version s); [discriminate|].
  destruct (Version "3.0"); [discriminate|].
  destruct (Version_ge _ _); intros [= <-]; discriminate.
Qed.

Lemma or_list_nonempty (A : Type) (xs : option (list A)) (d : list A) :
  d <> [] -> or_list xs d <> [].
Proof. destruct xs as [[|x xs]|]; simpl; congruence. Qed.

(** X1: a non-empty list of extra arguments given to [markdown2asciidoc]
    is passed to the converter as it is, whatever version is reported: the
    heading flag is not added to it. *)
Theorem markdown2asciidoc_explicit_extra_args :
  forall (pandoc : call -> result string) (pv : option string)
         (flags : list string) (source : string)
         (extra_args : list string) (log : list call),
    atx_args_for pv = inr flags -> extra_args <> [] ->
    markdown2asciidoc pandoc (inr pv) source (Some extra_args) log =
    (match pandoc (asciidoc_call source extra_args) with
     | inr out => inr (fix_emphasis out)
     | inl e => inl e
     end, log ++ [asciidoc_call source extra_args]).
Proof.
  intros pandoc pv flags source extra_args log Hf Hne.
  rewrite (markdown2asciidoc_run pandoc pv flags source (Some extra_args)
             log Hf).
  destruct extra_args as [|x xs]; [congruence | reflexivity].
Qed.

Lemma markdown2asciidoc_explicit_extra_args_witness :
  markdown2asciidoc (fun _ => inr "= T") (inr (Some "3.1")) "# T"
    (Some ["--wrap=none"]) [] =
  (inr "= T", [asciidoc_call "# T" ["--wrap=none"]]).
Proof.
  apply (markdown2asciidoc_explicit_extra_args (fun _ => inr "= T")
           (Some "3.1") ["--markdown-headings=atx"] "# T" ["--wrap=none"] []).
  - reflexivity.
  - discriminate.
Defined.

Lemma markdown2asciidoc_flag_failure pandoc pv source extra_args log e :
  atx_args_for pv = inl e ->
  markdown2asciidoc pandoc (inr pv) source extra_args log = (inl e, log).
Proof.
  intros H. unfold markdown2asciidoc, bind, lift. rewrite H. reflexivity.
Qed.

(** X2: when the version query raises, [markdown2asciidoc] raises the same
    exception without invoking the converter, also when extra arguments
    are given. *)
Theorem markdown2asciidoc_version_query_failure :
  forall (pandoc : call -> result string) (source : string)
         (extra_args : option (list string)) (log : list call) (e : exn),
    markdown2asciidoc pandoc (inl e) source extra_args log = (inl e, log) /\
    invocations (markdown2asciidoc pandoc (inl e) source extra_args) log =
    log.
Proof. intros. split; reflexivity. Qed.

Lemma ints_of_empty_piece (parts : list string) :
  ints_of (EmptyString :: parts) = None.
Proof. reflexivity. Qed.

Lemma ints_of_cons_none (p : string) (parts : list string) :
  ints_of parts = None -> ints_of (p :: parts) = None.
Proof. intros H. simpl. rewrite H. destruct (int_of p); reflexivity. Qed.

Lemma split_dots_empty_piece (s : string) :
  forall cur,
    str_in ".." s = true \/ last_char s = Some "."%char ->
    ints_of (split_dots cur s) = None.
Proof.
  induction s as [|c s IH]; intros cur H.
  - destruct H; discriminate.
  - cbn [split_dots]. destruct (Ascii.eqb_spec c ".") as [->|Hc].
    + apply ints_of_cons_none. destruct s as [|d s]; [reflexivity|].
      destruct (Ascii.eqb_spec d ".") as [->|Hd]; [reflexivity|].
      apply IH. rewrite last_char_cons_cons in H.
      destruct H as [H|H]; [left | right; exact H].
      cbn [str_in startswith] in H. cbn [str_in startswith].
      destruct (Ascii.eqb_spec "." d) as [<-|_]; [congruence|].
      rewrite andb_false_r in H. exact H.
    + apply IH. destruct H as [H|H]; [left | right].
      * cbn [str_in] in H. apply orb_prop in H as [H|H]; [|exact H].
        cbn [startswith] in H.
        destruct (Ascii.eqb_spec "." c) as [<-|_]; [congruence|].
        discriminate.
      * destruct s as [|d s]; [|rewrite last_char_cons_cons in H; exact H].
        cbn in H. congruence.
Qed.

(** X3: a reported version made of digits and dots with an empty piece
    (a leading dot, a trailing dot or two dots in a row) is rejected by
    [Version]: [markdown2asciidoc] raises [InvalidVersion] without
    invoking the converter, also when extra arguments are given. *)
Theorem markdown2asciidoc_malformed_version :
  forall (pandoc : call -> result string) (s source : string)
         (extra_args : option (list string)) (log : list call),
    all_in version_chars s = true ->
    startswith "." s = true \/ str_in ".." s = true \/
    last_char s = Some "."%char ->
    exists msg,
      markdown2asciidoc pandoc (inr (Some s)) source extra_args log =
      (inl (InvalidVersion msg), log).
Proof.
  intros pandoc s source extra_args log _ H. exists s.
  apply markdown2asciidoc_flag_failure.
  assert (Hv : Version s = inl (InvalidVersion s)).
  { unfold Version. destruct H as [H|H].
    - destruct s as [|c s]; [discriminate|]. cbn [startswith] in H.
      apply andb_prop in H as [H _]. apply Ascii.eqb_eq in H as <-.
      reflexivity.
    - rewrite (split_dots_empty_piece s EmptyString H). reflexivity. }
  unfold atx_args_for. rewrite Hv.
  destruct s as [|c s]; [|reflexivity].
  destruct H as [H|[H|H]]; discriminate.
Qed.

Lemma markdown2asciidoc_malformed_version_witness :
  exists msg,
    markdown2asciidoc (fun _ => inr "= T"%string) (inr (Some "3."%string))
      "# T"%string (Some ["--wrap=none"%string]) [] =
    (inl (InvalidVersion msg), []).
Proof.
  apply (markdown2asciidoc_malformed_version (fun _ => inr "= T"%string)
           "3."%string "# T"%string (Some ["--wrap=none"%string]) []).
  - reflexivity.
  - right. right. reflexivity.
Defined.

(** X4: when the converter raises, [markdown2asciidoc] raises the same
    exception after that one invocation; nothing is fixed up or returned. *)
Theorem markdown2asciidoc_converter_failure :
  forall (pandoc : call -> result string) (pv : option string)
         (flags : list string) (source : string)
         (extra_args : option (list string)) (log : list call) (e : exn),
    atx_args_for pv = inr flags ->
    pandoc (asciidoc_call source (or_list extra_args flags)) = inl e ->
    markdown2asciidoc pandoc (inr pv) source extra_args log =
    (inl e, log ++ [asciidoc_call source (or_list extra_args flags)]).
Proof.
  intros pandoc pv flags source extra_args log e Hf He.
  rewrite (markdown2asciidoc_run pandoc pv flags source extra_args log Hf).
  cbv zeta. rewrite He. reflexivity.
Qed.

Lemma markdown2asciidoc_converter_failure_witness :
  markdown2asciidoc (fun _ => inl (Raised "PandocMissing" "not found"))
    (inr None) "# T" None [] =
  (inl (Raised "PandocMissing" "not found"),
   [asciidoc_call "# T" ["--atx-headers"]]).
Proof.
  apply (markdown2asciidoc_converter_failure
           (fun _ => inl (Raised "PandocMissing" "not found")) None
           ["--atx-headers"] "# T" None []);
    reflexivity.
Defined.

(** X5: [markdown2asciidoc] and [markdown2html_pandoc] keep the earlier
    invocations and add at most one (the HTML filter exactly one); the one
    they add carries the source as given, reads
    [markdown+lists_without_preceding_blankline], writes "asciidoc"
    respectively "html", and always has a non-empty list of extra
    arguments. *)
Theorem pandoc_filters_invocation_shape :
  forall (pandoc : call -> result string)
         (get_pandoc_version : result (option string))
         (source : string) (extra_args : option (list string))
         (log : list call),
    (exists new,
        invocations
          (markdown2asciidoc pandoc get_pandoc_version source extra_args)
          log = log ++ new /\
        List.length new <= 1 /\
        forall c, List.In c new ->
                  call_source c = source /\ call_from c = _MARKDOWN_FMT /\
                  call_to c = "asciidoc"%string /\
                  exists x xs, call_extra_args c = Some (x :: xs)) /\
    (exists c,
        invocations (markdown2html_pandoc pandoc source extra_args) log =
        log ++ [c] /\
        call_source c = source /\ call_from c = _MARKDOWN_FMT /\
        call_to c = "html"%string /\
        exists x xs, call_extra_args c = Some (x :: xs)).
Proof.
  intros pandoc gpv source extra_args log. split.
  - destruct gpv as [e|pv].
    + exists []. split; [|split; [simpl; lia | intros c []]].
      unfold invocations. rewrite app_nil_r. reflexivity.
    + destruct (atx_args_for pv) as [e|flags] eqn:Hf.
      * exists []. split; [|split; [simpl; lia | intros c []]].
        unfold invocations.
        rewrite (markdown2asciidoc_flag_failure pandoc pv source extra_args
                   log e Hf).
        rewrite app_nil_r. reflexivity.
      * exists [asciidoc_call source (or_list extra_args flags)].
        split; [|split; [simpl; lia|]].
        { unfold invocations.
          rewrite (markdown2asciidoc_run pandoc pv flags source extra_args
                     log Hf).
          reflexivity. }
        intros c [<-|[]].
        split; [reflexivity|]. split; [reflexivity|].
        split; [reflexivity|]. cbn [asciidoc_call call_extra_args].
        pose proof (or_list_nonempty string extra_args flags
                      (atx_args_for_nonempty pv flags Hf)) as Hne.
        destruct (or_list extra_args flags) as [|x xs]; [congruence|].
        exists x, xs. reflexivity.
  - eexists. split; [reflexivity|].
    split; [reflexivity|]. split; [reflexivity|]. split; [reflexivity|].
    cbn [call_extra_args].
    destruct extra_args as [[|x xs]|]; cbn [or_list]; eauto.
Qed.

(** * Further properties of the fix-up *)

Local Open Scope string_scope.

Lemma strip_underscores_append (a b : string) :
  strip_underscores (a ++ b) = strip_underscores a ++ strip_underscores b.
Proof.
  induction a as [|c a IH]; [reflexivity|]. cbn [append strip_underscores].
  rewrite IH. destruct (c =? "_")%char; reflexivity.
Qed.

Section Rewrites.
Variables (r : regex) (t : template).

(** Every replacement is the matched text less two underscores. *)
Hypothesis rewrite_shape :
  forall prev s caps rest,
    match_at r prev s = Some (caps, rest) ->
    exists m,
      s = m ++ rest /\
      strip_underscores (expand t caps) = strip_underscores m /\
      length m = length (expand t caps) + 2.

Lemma sub_scan_cases (prev : option ascii) (c : ascii) (s : string) :
  sub_scan r t 0 prev (String c s) = String c (sub_scan r t 0 (Some c) s) \/
  exists m rest caps,
    String c s = m ++ rest /\
    strip_underscores (expand t caps) = strip_underscores m /\
    length m = length (expand t caps) + 2 /\
    sub_scan r t 0 prev (String c s) =
    expand t caps ++ sub_scan r t 0 (prev_after prev m) rest.
Proof.
  destruct (match_at r prev (String c s)) as [[caps rest]|] eqn:E.
  - right. destruct (rewrite_shape _ _ _ _ E) as (m & Em & Hs & Hl).
    exists m, rest, caps. repeat split; try assumption.
    rewrite Em in E |- *. apply sub_scan_match; [|exact E].
    intros ->. simpl in Hl. lia.
  - left. apply sub_scan_nomatch, E.
Qed.

Lemma sub_scan_strip (n : nat) :
  forall s prev,
    length s <= n ->
    strip_underscores (sub_scan r t 0 prev s) = strip_underscores s.
Proof.
  induction n as [|n IH]; intros s prev Hn.
  - destruct s; [reflexivity | simpl in Hn; lia].
  - destruct s as [|c s]; [reflexivity|].
    destruct (sub_scan_cases prev c s)
      as [-> | (m & rest & caps & Em & Hs & Hl & ->)].
    + cbn [strip_underscores]. rewrite IH by (simpl in Hn; lia).
      reflexivity.
    + rewrite Em, !strip_underscores_append, Hs. f_equal. apply IH.
      rewrite Em, length_append in Hn. lia.
Qed.

Lemma sub_scan_length (n : nat) :
  forall s prev,
    length s <= n ->
    exists k,
      length s = length (sub_scan r t 0 prev s) + 2 * k /\
      (k = 0 -> sub_scan r t 0 prev s = s).
Proof.
  induction n as [|n IH]; intros s prev Hn.
  - destruct s; [|simpl in Hn; lia]. exists 0. split; reflexivity.
  - destruct s as [|c s]; [exists 0; split; reflexivity|].
    destruct (sub_scan_cases prev c s)
      as [-> | (m & rest & caps & Em & Hs & Hl & ->)].
    + destruct (IH s (Some c)) as (k & Hk & Hz); [simpl in Hn; lia|].
      exists k. cbn [length]. split; [lia|].
      intros Hk0. rewrite (Hz Hk0). reflexivity.
    + destruct (IH rest (prev_after prev m)) as (k & Hk & _).
      { rewrite Em, length_append in Hn. lia. }
      exists (S k). rewrite Em, !length_append. split; [lia | discriminate].
Qed.
End Rewrites.

Lemma emphasis_rewrite_shape prev s caps rest :
  match_at emphasis_re prev s = Some (caps, rest) ->
  exists m,
    s = m ++ rest /\
    strip_underscores (expand emphasis_repl caps) = strip_underscores m /\
    length m = length (expand emphasis_repl caps) + 2.
Proof.
  intros H. destruct (emphasis_match_sound _ _ _ _ H)
    as (_ & g & t & -> & _ & _ & _ & ->).
  exists ("__" ++ g ++ "__" ++ String t ""). split; [|split].
  - cbn [append]. rewrite append_assoc. reflexivity.
  - cbn [append strip_underscores Ascii.eqb Bool.eqb].
    rewrite !strip_underscores_append. reflexivity.
  - cbn [append length]. rewrite !length_append. cbn [length]. lia.
Qed.

Lemma link_rewrite_shape prev s caps rest :
  match_at link_re prev s = Some (caps, rest) ->
  exists m,
    s = m ++ rest /\
    strip_underscores (expand link_repl caps) = strip_underscores m /\
    length m = length (expand link_repl caps) + 2.
Proof.
  intros H. destruct (link_match_sound _ _ _ _ H) as (g & -> & _ & _ & ->).
  exists ("(__" ++ g ++ "__)"). split; [|split].
  - cbn [append]. rewrite append_assoc. reflexivity.
  - cbn [append strip_underscores Ascii.eqb Bool.eqb].
    rewrite !strip_underscores_append. reflexivity.
  - cbn [append length]. rewrite !length_append. cbn [length]. lia.
Qed.

(** X7: the fix-up changes nothing but underscores: each substitution, the
    fix-up as a whole and so the filter return the converter's text with
    some underscores removed, every other character kept in place. *)
Theorem fix_emphasis_only_removes_underscores :
  forall s : string,
    strip_underscores (sub_emphasis s) = strip_underscores s /\
    strip_underscores (sub_link s) = strip_underscores s /\
    strip_underscores (fix_emphasis s) = strip_underscores s /\
    (forall pandoc pv source extra_args,
        converts_to pandoc pv source extra_args s ->
        exists text,
          asciidoc_of pandoc pv source extra_args = inr text /\
          strip_underscores text = strip_underscores s).
Proof.
  intros s.
  assert (He : forall x, strip_underscores (sub_emphasis x) =
                         strip_underscores x).
  { intros x. apply (sub_scan_strip emphasis_re emphasis_repl
                       emphasis_rewrite_shape (length x)). lia. }
  assert (Hl : forall x, strip_underscores (sub_link x) =
                         strip_underscores x).
  { intros x. apply (sub_scan_strip link_re link_repl link_rewrite_shape
                       (length x)). lia. }
  assert (Hf : strip_underscores (fix_emphasis s) = strip_underscores s)
    by (rewrite fix_emphasis_eq, Hl; apply He).
  repeat split; auto.
  intros pandoc pv source extra_args Hc. exists (fix_emphasis s).
  split; [apply markdown2asciidoc_returns, Hc | exact Hf].
Qed.

Lemma fix_emphasis_only_removes_underscores_witness :
  exists text,
    asciidoc_of (fun _ => inr "a (__b/c__) and __d e__.") None "src" None =
    inr text /\
    strip_underscores text = "a (b/c) and d e.".
Proof.
  apply (proj2 (proj2 (proj2 (fix_emphasis_only_removes_underscores
                                "a (__b/c__) and __d e__.")))
           (fun _ => inr "a (__b/c__) and __d e__.") None "src" None).
  exists ["--atx-headers"]%list. split; reflexivity.
Defined.

(** X8: every rewrite removes exactly two characters, so the fix-up
    shortens the text by an even number of characters, and a result as
    long as the text is the text itself. *)
Theorem fix_emphasis_length :
  forall s : string,
    (exists k, length s = length (fix_emphasis s) + 2 * k) /\
    (length (fix_emphasis s) = length s -> fix_emphasis s = s).
Proof.
  intros s. rewrite fix_emphasis_eq. unfold sub_link, sub_emphasis, re_sub.
  destruct (sub_scan_length emphasis_re emphasis_repl emphasis_rewrite_shape
              (length s) s None (le_n _)) as (k1 & H1 & Z1).
  set (s1 := sub_scan emphasis_re emphasis_repl 0 None s) in *.
  destruct (sub_scan_length link_re link_repl link_rewrite_shape
              (length s1) s1 None (le_n _)) as (k2 & H2 & Z2).
  split.
  - exists (k1 + k2). lia.
  - intros H. assert (K1 : k1 = 0) by lia. assert (K2 : k2 = 0) by lia.
    rewrite (Z2 K2). apply Z1, K1.
Qed.

Lemma fix_emphasis_length_witness :
  fix_emphasis "a_b __c" = "a_b __c".
Proof.
  apply (proj2 (fix_emphasis_length "a_b __c")). reflexivity.
Defined.

(** The link pattern matches [(__g__)] for every non-empty [g] over its
    set. *)
Lemma link_match_complete (prev : option ascii) (g rest : string) :
  g <> "" -> all_in link_set g = true ->
  exists caps,
    match_at link_re prev ("(__" ++ g ++ "__)" ++ rest) = Some (caps, rest) /\
    expand link_repl caps = "(_" ++ g ++ "_)".
Proof.
  intros Hne Hg. exists [(1, g)]%list. split; [|reflexivity].
  unfold match_at, link_re, seq. cbn [fold_right rmatch append].
  change (("(" =? "(")%char) with true.
  change (("_" =? "_")%char) with true. cbv iota.
  apply many1_longest; try assumption.
  - intros p. cbn [append]. change (("_" =? "_")%char) with true.
    change ((")" =? ")")%char) with true. cbv iota.
    change (String "_" (String "_" (String ")" rest))) with ("__)" ++ rest).
    rewrite take_matched. reflexivity.
  - intros g2 s2 p Hne2 Hg2 E.
    destruct g2 as [|a [|b [|c g3]]]; [congruence| | |]; cbn [append] in E.
    + injection E as <- <-. reflexivity.
    + injection E as <- <- <-. reflexivity.
    + injection E as <- <- <- E. cbn [all_in] in Hg2.
      rewrite !andb_true_iff in Hg2. destruct Hg2 as (_ & _ & Hc & _).
      discriminate Hc.
Qed.

(** Text without [(__] holds no start of it either, when what follows
    does not start with an underscore. *)
Lemma no_link_start (pre w : string) :
  str_in "(__" pre = false -> startswith "_" w = false ->
  starts_in "(__" pre w = false.
Proof.
  intros H Hw. induction pre as [|c pre IH]; [reflexivity|].
  apply str_in_cons in H as [H1 H2]. cbn [starts_in].
  rewrite (IH H2), orb_false_r.
  change (startswith "(__" (String c pre ++ w))
    with (("(" =? c)%char && startswith "__" (pre ++ w)).
  change (startswith "(__" (String c pre))
    with (("(" =? c)%char && startswith "__" pre) in H1.
  destruct ("(" =? c)%char; [|reflexivity]. cbn [andb] in *.
  destruct pre as [|d [|e pre]].
  - cbn [append]. destruct w as [|x w]; [reflexivity|].
    cbn [startswith] in *. rewrite andb_true_r in Hw. rewrite Hw.
    reflexivity.
  - cbn [append startswith] in *. destruct w as [|x w].
    + apply andb_false_r.
    + rewrite andb_true_r in Hw. rewrite Hw. apply andb_false_r.
  - exact H1.
Qed.

(** The link substitution at a token [(__g__)]. *)
Lemma sub_link_rewrites_token_aux (pre g post : string) :
  str_in "(__" pre = false -> g <> "" -> all_in link_set g = true ->
  sub_link (pre ++ "(__" ++ g ++ "__)" ++ post) =
  pre ++ "(_" ++ g ++ "_)" ++ sub_link post.
Proof.
  intros Hpre Hne Hg. unfold sub_link, re_sub.
  rewrite (sub_scan_prefix link_re link_repl "(__" link_needs_paren pre)
    by (apply no_link_start; [exact Hpre | reflexivity]).
  f_equal.
  destruct (link_match_complete (prev_after None pre) g post Hne Hg)
    as (caps & Hm & He).
  replace ("(__" ++ g ++ "__)" ++ post)
    with (("(__" ++ g ++ "__)") ++ post) in Hm |- *
    by (cbn [append]; rewrite append_assoc; reflexivity).
  rewrite (sub_scan_match link_re link_repl _ _ post caps);
    [|discriminate | exact Hm].
  rewrite He. cbn [append]. rewrite append_assoc. cbn [append].
  do 5 f_equal. apply link_scan_prev.
Qed.

(** X9: the link substitution rewrites a token [(__g__)], with [g] a
    non-empty sequence of word characters, slashes, digits, colons and
    periods, wherever the text before it holds no [(__], and goes on after
    the token. *)
Theorem sub_link_rewrites_token :
  forall pre g post : string,
    str_in "(__" pre = false -> g <> "" -> all_in link_set g = true ->
    sub_link (pre ++ "(__" ++ g ++ "__)" ++ post) =
    pre ++ "(_" ++ g ++ "_)" ++ sub_link post.
Proof. exact sub_link_rewrites_token_aux. Qed.

Lemma sub_link_rewrites_token_witness :
  sub_link "see (__http://x.y/z__) or (__a__)" =
  "see (_http://x.y/z_) or (_a_)".
Proof.
  apply (sub_link_rewrites_token "see " "http://x.y/z" " or (__a__)").
  - reflexivity.
  - discriminate.
  - reflexivity.
Defined.

Lemma emphasis_needs_boundary (prev : option ascii) (s : string) :
  word_before prev = true -> match_at emphasis_re prev s = None.
Proof.
  intros H. destruct (match_at emphasis_re prev s) as [[caps rest]|] eqn:E;
    [|reflexivity].
  apply emphasis_match_sound in E as [E _]. congruence.
Qed.

Lemma sub_emphasis_guarded (s : string) :
  forall prev,
    dunders_follow_word prev s = true ->
    sub_scan emphasis_re emphasis_repl 0 prev s = s.
Proof.
  induction s as [|c s IH]; intros prev H; [reflexivity|].
  cbn [dunders_follow_word] in H. apply andb_prop in H as [H1 H2].
  rewrite sub_scan_nomatch, (IH _ H2); [reflexivity|].
  apply orb_prop in H1 as [H1|H1].
  - apply emphasis_needs_underscores. apply negb_true_iff, H1.
  - apply emphasis_needs_boundary, H1.
Qed.

(** X10: the emphasis substitution leaves a text unchanged in which every
    [__] directly follows a word character (as inside identifiers); the
    fix-up then is the link substitution alone. *)
Theorem emphasis_needs_word_boundary :
  forall s : string,
    dunders_follow_word None s = true ->
    sub_emphasis s = s /\ fix_emphasis s = sub_link s.
Proof.
  intros s H.
  assert (He : sub_emphasis s = s) by (apply sub_emphasis_guarded, H).
  split; [exact He|]. rewrite fix_emphasis_eq, He. reflexivity.
Qed.

Lemma emphasis_needs_word_boundary_witness :
  sub_emphasis "call my__var__, then x__y__." = "call my__var__, then x__y__.".
Proof.
  apply (proj1 (emphasis_needs_word_boundary
                  "call my__var__, then x__y__." eq_refl)).
Defined.

Lemma all_in_append (cs : charset) (a b : string) :
  all_in cs (a ++ b) = all_in cs a && all_in cs b.
Proof.
  induction a as [|c a IH]; [reflexivity|]. cbn [append all_in].
  rewrite IH, andb_assoc. reflexivity.
Qed.

(** Two ways of cutting one text: one first part is the start of the
    other. *)
Lemma append_split (a : string) :
  forall x b y,
    a ++ x = b ++ y ->
    (exists e, b = a ++ e) \/ (exists c e, a = b ++ String c e).
Proof.
  induction a as [|c a IH]; intros x b y E.
  - left. exists b. reflexivity.
  - destruct b as [|d b].
    + right. exists c, a. reflexivity.
    + cbn [append] in E. injection E as <- E.
      destruct (IH _ _ _ E) as [[e ->] | (c' & e & ->)].
      * left. exists e. reflexivity.
      * right. exists c', e. reflexivity.
Qed.

Lemma no_dunder_start (pre w : string) :
  str_in "__" pre = false -> startswith "_" w = false ->
  starts_in "__" pre w = false.
Proof.
  intros H Hw. induction pre as [|c pre IH]; [reflexivity|].
  apply str_in_cons in H as [H1 H2]. cbn [starts_in].
  rewrite (IH H2), orb_false_r.
  destruct pre as [|d pre].
  - cbn [append startswith]. destruct w as [|x w]; [apply andb_false_r|].
    cbn [startswith] in Hw. rewrite andb_true_r in Hw. rewrite Hw.
    apply andb_false_r.
  - exact H1.
Qed.

Lemma no_underscore_no_dunder_start (g v : string) :
  str_in "_" g = false -> starts_in "__" g v = false.
Proof.
  induction g as [|c g IH]; intros H; [reflexivity|].
  apply str_in_cons in H as [H1 H2]. cbn [starts_in].
  rewrite (IH H2), orb_false_r. cbn [append startswith] in *.
  rewrite andb_true_r in H1. rewrite H1. reflexivity.
Qed.

(** At a link token whose path is not made of emphasis characters only,
    the emphasis pattern does not match. *)
Lemma emphasis_skips_path (prev : option ascii) (g post : string) :
  str_in "_" g = false -> all_in emphasis_set g = false ->
  match_at emphasis_re prev ("__" ++ g ++ "__)" ++ post) = None.
Proof.
  intros Hu Hg.
  destruct (match_at emphasis_re prev ("__" ++ g ++ "__)" ++ post))
    as [[caps rest]|] eqn:E; [|reflexivity].
  apply emphasis_match_sound in E as (_ & g' & t & E & _ & Hg' & _).
  cbn [append] in E. injection E as E.
  destruct (append_split _ _ _ _ E) as [[e ->] | (c & e & ->)].
  - rewrite all_in_append in Hg'. apply andb_prop in Hg' as [Hg' _].
    congruence.
  - rewrite append_assoc in E.
    assert (E' : String c e ++ "__)" ++ post = "__" ++ String t rest).
    { revert E. clear. induction g' as [|x g' IH]; cbn [append]; intros E.
      - exact E.
      - injection E as E. apply IH, E. }
    cbn [append] in E'. injection E' as -> _.
    rewrite str_in_char_append in Hu. apply orb_false_elim in Hu as [_ Hu].
    discriminate Hu.
Qed.

(** What the emphasis substitution does to a link token without
    underscores in its path. *)
Lemma sub_emphasis_link_token (pre g post : string) :
  str_in "__" pre = false -> g <> "" -> str_in "_" g = false ->
  sub_emphasis (pre ++ "(__" ++ g ++ "__)" ++ post) =
  pre ++ "(" ++
  (if all_in emphasis_set g then "_" ++ g ++ "_)" else "__" ++ g ++ "__)")
  ++ sub_emphasis post.
Proof.
  intros Hpre Hne Hu.
  assert (Hpre' : str_in "__" (pre ++ "(") = false).
  { rewrite str_in_append, (no_dunder_start pre "(" Hpre eq_refl).
    reflexivity. }
  assert (Hl : word_before (last_char (pre ++ "(")) = false)
    by (rewrite last_char_append; reflexivity).
  replace (pre ++ "(__" ++ g ++ "__)" ++ post)
    with ((pre ++ "(") ++ "__" ++ g ++ "__" ++ String ")" post)
    by (rewrite append_assoc; reflexivity).
  replace (pre ++ "(" ++
           (if all_in emphasis_set g then "_" ++ g ++ "_)"
            else "__" ++ g ++ "__)") ++ sub_emphasis post)
    with ((pre ++ "(") ++
          (if all_in emphasis_set g then "_" ++ g ++ "_)"
           else "__" ++ g ++ "__)") ++ sub_emphasis post)
    by (rewrite append_assoc; reflexivity).
  unfold sub_emphasis, re_sub.
  destruct (all_in emphasis_set g) eqn:Hg.
  - rewrite (sub_emphasis_first None (pre ++ "(") g ")" post Hpre' Hl eq_refl
               Hne Hg eq_refl (or_introl eq_refl)).
    f_equal. cbn [append]. f_equal. rewrite append_assoc. reflexivity.
  - rewrite (sub_scan_prefix emphasis_re emphasis_repl "__"
               emphasis_needs_underscores (pre ++ "("))
      by (apply no_underscores_start; assumption).
    f_equal. cbn [append].
    rewrite sub_scan_nomatch
      by (apply (emphasis_skips_path _ g post Hu Hg)).
    f_equal.
    change (sub_scan emphasis_re emphasis_repl 0 (Some "_"%char)
              (String "_" (g ++ String "_" (String "_" (String ")" post)))))
      with (sub_scan emphasis_re emphasis_repl 0 (Some "_"%char)
              (String "_" g ++ "__)" ++ post)).
    rewrite (sub_scan_prefix emphasis_re emphasis_repl "__"
               emphasis_needs_underscores (String "_" g)).
    + cbn [append]. f_equal. rewrite append_assoc. f_equal.
      rewrite sub_scan_nomatch.
      * change (String "_" (String ")" post)) with ("_)" ++ post).
        rewrite (sub_scan_prefix emphasis_re emphasis_repl "__"
                   emphasis_needs_underscores "_)") by reflexivity.
        cbn [append]. do 3 f_equal. apply emphasis_scan_prev. reflexivity.
      * change (String "_" (String "_" (String ")" post)))
          with ("__" ++ String ")" post).
        rewrite emphasis_match_unfold.
        destruct (word_before (prev_after _ _)); reflexivity.
    + cbn [starts_in].
      rewrite (no_underscore_no_dunder_start g _ Hu), orb_false_r.
      destruct g as [|x g]; [congruence|].
      apply str_in_cons in Hu as [Hu _]. cbn [append startswith] in *.
      rewrite andb_true_r in Hu. rewrite Hu. reflexivity.
Qed.

(** X11: the filter rewrites a link token [(__g__)], with [g] a non-empty
    sequence of letters, digits, slashes, colons and periods (no
    underscore), to [(_g_)] when the text before the token holds no [__];
    the text after the token is fixed up on its own. *)
Theorem fix_emphasis_rewrites_link_token :
  forall pre g post : string,
    str_in "__" pre = false ->
    g <> "" -> all_in link_set g = true -> str_in "_" g = false ->
    fix_emphasis (pre ++ "(__" ++ g ++ "__)" ++ post) =
    pre ++ "(_" ++ g ++ "_)" ++ fix_emphasis post.
Proof.
  intros pre g post Hpre Hne Hg Hu.
  rewrite !fix_emphasis_eq, (sub_emphasis_link_token pre g post Hpre Hne Hu).
  pose proof (no_underscores_no_paren_underscores pre Hpre) as Hl.
  destruct (all_in emphasis_set g).
  - unfold sub_link at 1. unfold re_sub.
    rewrite (sub_scan_prefix link_re link_repl "(__" link_needs_paren pre)
      by (apply no_link_start; [exact Hl | reflexivity]).
    f_equal.
    replace ("(" ++ ("_" ++ g ++ "_)") ++ sub_emphasis post)
      with (("(_" ++ g ++ "_)") ++ sub_emphasis post)
      by (cbn [append]; rewrite append_assoc; reflexivity).
    rewrite (sub_scan_prefix link_re link_repl "(__" link_needs_paren
               ("(_" ++ g ++ "_)")).
    + rewrite append_assoc. cbn [append]. rewrite append_assoc.
      do 3 f_equal. cbn [append]. do 2 f_equal. apply link_scan_prev.
    + cbn [append starts_in]. apply orb_false_intro.
      * destruct g as [|x g]; [congruence|].
        apply str_in_cons in Hu as [Hu _]. cbn [append startswith] in *.
        rewrite andb_true_r in Hu. rewrite Hu. reflexivity.
      * apply (no_paren_start (String "_" (g ++ "_)"))).
        change (String "_" (g ++ "_)")) with ("_" ++ g ++ "_)").
        rewrite 2 str_in_char_append,
          (all_in_excludes link_set "(" g Hg eq_refl).
        reflexivity.
  - replace (pre ++ "(" ++ ("__" ++ g ++ "__)") ++ sub_emphasis post)
      with (pre ++ "(__" ++ g ++ "__)" ++ sub_emphasis post)
      by (cbn [append]; rewrite append_assoc; reflexivity).
    apply (sub_link_rewrites_token_aux pre g (sub_emphasis post) Hl Hne Hg).
Qed.

Lemma fix_emphasis_rewrites_link_token_witness :
  fix_emphasis "see (__http://x.y/z__), or __b__." =
  "see (_http://x.y/z_), or _b_.".
Proof.
  apply (fix_emphasis_rewrites_link_token "see " "http://x.y/z"
           ", or __b__.").
  - reflexivity.
  - discriminate.
  - reflexivity.
  - reflexivity.
Defined.

(** * Further properties of the version test *)

Local Open Scope list_scope.

Lemma tuple_compare_nil_r (a : list N) :
  tuple_compare [] a <> Lt -> a = [].
Proof. destruct a; [reflexivity | intros H; elim H; reflexivity]. Qed.

Lemma tuple_ge_trans (a : list N) :
  forall b c,
    tuple_compare a b <> Lt -> tuple_compare b c <> Lt ->
    tuple_compare a c <> Lt.
Proof.
  induction a as [|x a IH]; intros b c Hab Hbc.
  - apply tuple_compare_nil_r in Hab as ->. exact Hbc.
  - destruct b as [|y b].
    + apply tuple_compare_nil_r in Hbc as ->. discriminate.
    + destruct c as [|z c]; [discriminate|]. cbn [tuple_compare] in *.
      destruct (N.compare_spec x y) as [->|Hxy|Hxy]; [|congruence|].
      * destruct (N.compare_spec y z) as [->|Hyz|Hyz];
          [|congruence | discriminate].
        apply (IH b c Hab Hbc).
      * destruct (N.compare_spec y z) as [->|Hyz|Hyz]; [|congruence|].
        -- destruct (N.compare_spec x z); [lia | lia | discriminate].
        -- destruct (N.compare_spec x z); [lia | lia | discriminate].
Qed.

Lemma Version_ge_trans (a b c : version) :
  Version_ge a b = true -> Version_ge b c = true -> Version_ge a c = true.
Proof.
  unfold Version_ge. intros Hab Hbc.
  pose proof (tuple_ge_trans (cmpkey a) (cmpkey b) (cmpkey c)) as H.
  destruct (tuple_compare (cmpkey a) (cmpkey b)); try discriminate;
    destruct (tuple_compare (cmpkey b) (cmpkey c)); try discriminate;
    destruct (tuple_compare (cmpkey a) (cmpkey c)); try reflexivity;
    elim H; congruence.
Qed.

Lemma markdown2asciidoc_flag_of_version pandoc s v source log :
  Version s = inr v ->
  invocations (markdown2asciidoc pandoc (inr (Some s)) source None) log =
  log ++ [asciidoc_call source
            [if Version_ge v v3_0 then "--markdown-headings=atx"%string
             else "--atx-headers"%string]].
Proof.
  intros H. unfold invocations.
  rewrite (markdown2asciidoc_run pandoc (Some s) _ source None log
             (atx_args_for_version s v H)).
  destruct (Version_ge v v3_0); reflexivity.
Qed.

(** X12: the choice of the heading flag is monotone in the version: when
    a reported version selects [--markdown-headings=atx], so does every
    version that compares greater than or equal to it. *)
Theorem heading_flag_monotone :
  forall (pandoc : call -> result string) (source : string)
         (log : list call) (a b : string) (va vb : version),
    Version a = inr va -> Version b = inr vb ->
    Version_ge vb va = true ->
    invocations (markdown2asciidoc pandoc (inr (Some a)) source None) log =
    log ++ [asciidoc_call source ["--markdown-headings=atx"%string]] ->
    invocations (markdown2asciidoc pandoc (inr (Some b)) source None) log =
    log ++ [asciidoc_call source ["--markdown-headings=atx"%string]].
Proof.
  intros pandoc source log a b va vb Ha Hb Hge H.
  rewrite (markdown2asciidoc_flag_of_version pandoc a va source log Ha) in H.
  rewrite (markdown2asciidoc_flag_of_version pandoc b vb source log Hb).
  apply app_inv_head in H.
  destruct (Version_ge va v3_0) eqn:Hva; [|discriminate H].
  rewrite (Version_ge_trans vb va v3_0 Hge Hva). reflexivity.
Qed.

Lemma heading_flag_monotone_witness :
  invocations (markdown2asciidoc (fun _ => inr "= T"%string)
                 (inr (Some "3.6.1"%string)) "# T"%string None) [] =
  [asciidoc_call "# T"%string ["--markdown-headings=atx"%string]].
Proof.
  apply (heading_flag_monotone (fun _ => inr "= T"%string) "# T"%string []
           "3.0"%string "3.6.1"%string v3_0 (mkVersion [3; 6; 1]%N));
    reflexivity.
Defined.

(** * The link pattern and hyphens *)

Local Open Scope string_scope.

Lemma append_inv_head (a x y : string) : a ++ x = a ++ y -> x = y.
Proof.
  induction a as [|c a IH]; cbn [append]; intros E; [exact E|].
  injection E as E. apply IH, E.
Qed.

(** At a token whose path holds a hyphen the link pattern does not
    match. *)
Lemma link_skips_hyphen (prev : option ascii) (g post : string) :
  str_in "_" g = false -> str_in "-" g = true ->
  match_at link_re prev ("(__" ++ g ++ "__)" ++ post) = None.
Proof.
  intros Hu Hh.
  destruct (match_at link_re prev ("(__" ++ g ++ "__)" ++ post))
    as [[caps rest]|] eqn:E; [|reflexivity].
  apply link_match_sound in E as (g' & E & _ & Hg' & _).
  cbn [append] in E. injection E as E.
  destruct (append_split _ _ _ _ E) as [[e ->] | (c & e & ->)].
  - rewrite all_in_append in Hg'. apply andb_prop in Hg' as [Hg' _].
    rewrite (all_in_excludes link_set "-" g Hg' eq_refl) in Hh.
    discriminate Hh.
  - rewrite append_assoc in E. apply append_inv_head in E.
    cbn [append] in E. injection E as -> _.
    rewrite str_in_char_append in Hu. apply orb_false_elim in Hu as [_ Hu].
    discriminate Hu.
Qed.

(** The link substitution passes over a token whose path holds a
    hyphen. *)
Lemma sub_link_keeps_hyphenated (pre g post : string) :
  str_in "(__" pre = false ->
  all_in (SChr "-" :: link_set) g = true -> str_in "_" g = false ->
  str_in "-" g = true ->
  sub_link (pre ++ "(__" ++ g ++ "__)" ++ post) =
  pre ++ "(__" ++ g ++ "__)" ++ sub_link post.
Proof.
  intros Hl Hg Hu Hh. unfold sub_link, re_sub.
  rewrite (sub_scan_prefix link_re link_repl "(__" link_needs_paren pre)
    by (apply no_link_start; [exact Hl | reflexivity]).
  f_equal. cbn [append].
  rewrite sub_scan_nomatch by (apply (link_skips_hyphen _ g post Hu Hh)).
  f_equal.
  replace (String "_" (String "_"
             (g ++ String "_" (String "_" (String ")" post)))))
    with (("__" ++ g ++ "__)") ++ post)
    by (cbn [append]; rewrite append_assoc; reflexivity).
  rewrite (sub_scan_prefix link_re link_repl "(__" link_needs_paren
             ("__" ++ g ++ "__)")).
  - cbn [append]. rewrite append_assoc. cbn [append].
    do 6 f_equal. apply link_scan_prev.
  - apply no_paren_start.
    rewrite 2 str_in_char_append,
      (all_in_excludes (SChr "-" :: link_set) "(" g Hg eq_refl).
    reflexivity.
Qed.

(** X13: a link token [(__g__)] whose path [g] (letters, digits, slashes,
    colons, periods and hyphens, no underscore) holds a hyphen and also a
    slash, a colon or a period is left as it is by the fix-up, when the
    text before it holds no [__]; the text after it is fixed up on its
    own. *)
Theorem fix_emphasis_keeps_hyphenated_link :
  forall pre g post : string,
    str_in "__" pre = false ->
    all_in (SChr "-" :: link_set) g = true -> str_in "_" g = false ->
    str_in "-" g = true ->
    (str_in "/" g = true \/ str_in ":" g = true \/ str_in "." g = true) ->
    fix_emphasis (pre ++ "(__" ++ g ++ "__)" ++ post) =
    pre ++ "(__" ++ g ++ "__)" ++ fix_emphasis post.
Proof.
  intros pre g post Hpre Hg Hu Hh Hurl.
  assert (Hne : g <> "") by (intros ->; discriminate Hh).
  assert (He : all_in emphasis_set g = false).
  { destruct (all_in emphasis_set g) eqn:He; [|reflexivity].
    pose proof (fun c => all_in_excludes emphasis_set c g He) as Hx.
    destruct Hurl as [H|[H|H]];
      [rewrite (Hx "/"%char eq_refl) in H
      |rewrite (Hx ":"%char eq_refl) in H
      |rewrite (Hx "."%char eq_refl) in H]; discriminate H. }
  rewrite !fix_emphasis_eq,
    (sub_emphasis_link_token pre g post Hpre Hne Hu), He.
  generalize (sub_emphasis post). intros x.
  replace (pre ++ "(" ++ ("__" ++ g ++ "__)") ++ x)
    with (pre ++ "(__" ++ g ++ "__)" ++ x)
    by (cbn [append]; rewrite append_assoc; reflexivity).
  apply sub_link_keeps_hyphenated; try assumption.
  apply no_underscores_no_paren_underscores, Hpre.
Qed.

Lemma fix_emphasis_keeps_hyphenated_link_witness :
  fix_emphasis "see (__https://my-site.org/a-b__), or (__c/d__)" =
  "see (__https://my-site.org/a-b__), or (_c/d_)".
Proof.
  apply (fix_emphasis_keeps_hyphenated_link "see "
           "https://my-site.org/a-b" ", or (__c/d__)").
  - reflexivity.
  - reflexivity.
  - reflexivity.
  - reflexivity.
  - left. reflexivity.
Defined.

(** * Tokens in any context *)

Local Open Scope string_scope.


Section Reaching.
Variables (r : regex) (t : template).

End Reaching.


(** That no longer group is closed further on, read off the text. *)
Lemma closes_later_longest (s : string) :
  closes_later s = false ->
  forall g2 s2, g2 <> "" -> all_in emphasis_set g2 = true ->
                s = g2 ++ s2 -> emphasis_closes s2 = false.
Proof.
  intros H g2. revert s H.
  induction g2 as [|c g2 IH]; intros s H s2 Hne Hg E; [congruence|].
  subst s. cbn [append closes_later all_in] in *.
  apply andb_prop in Hg as [Hc Hg]. rewrite Hc in H. cbn [andb] in H.
  apply orb_false_elim in H as [H1 H2].
  destruct g2 as [|d g2]; [exact H1|].
  apply (IH _ H2 s2); [discriminate | exact Hg | reflexivity].
Qed.

Lemma closes_later_not_newline (t : ascii) (post : string) :
  in_set emphasis_end t = true -> t <> newline ->
  closes_later ("__" ++ String t post) = false.
Proof.
  intros Ht Hn. pose proof (emphasis_end_not_underscore t Ht) as Hu.
  assert (Hs : in_set emphasis_set t = false).
  { apply emphasis_end_not_word in Ht as Hw.
    unfold in_set, emphasis_set. cbn [existsb in_item]. rewrite Hw.
    unfold in_set, emphasis_end in Ht. cbn [existsb in_item] in Ht.
    repeat (apply orb_prop in Ht as [Ht|Ht];
            [apply Ascii.eqb_eq in Ht as ->; try reflexivity; congruence|]).
    discriminate. }
  cbn [append closes_later emphasis_closes]. rewrite Hs, Hu.
  cbn [andb orb]. rewrite !andb_false_r.
  destruct post as [|x [|y post]]; reflexivity.
Qed.


Section Removal.
Variable P : option ascii -> string -> bool.

Lemma removes_strip (prev : option ascii) (s out : string) :
  removes P prev s out -> strip_underscores out = strip_underscores s.
Proof.
  induction 1 as [|prev c s out _ IH|prev s out _ _ IH]; [reflexivity| |].
  - cbn [strip_underscores]. rewrite IH. reflexivity.
  - cbn [strip_underscores]. change (("_" =? "_")%char) with true.
    exact IH.
Qed.


(** What is left of a prefix. *)
Lemma removes_prefix (u : string) :
  forall prev s out,
    removes P prev (u ++ s) out ->
    exists before out',
      out = before ++ out' /\ removes P (prev_after prev u) s out' /\
      strip_underscores before = strip_underscores u.
Proof.
  induction u as [|c u IH]; intros prev s out H.
  - exists "", out. repeat split. exact H.
  - cbn [append] in H. rewrite prev_after_cons.
    inversion H as [|p c' s' o' H'|p s' o' HP H']; subst.
    + destruct (IH _ _ _ H') as (b & o & -> & Hr & Hs).
      exists (String c b), o. repeat split; [exact Hr|].
      cbn [strip_underscores]. rewrite Hs. reflexivity.
    + destruct (IH _ _ _ H') as (b & o & -> & Hr & Hs).
      exists b, o. repeat split; [exact Hr|].
      cbn [strip_underscores]. change (("_" =? "_")%char) with true.
      exact Hs.
Qed.

(** A stretch none of whose underscores is removable is still there. *)
Lemma removes_kept (w : string) :
  forall prev v out,
    kept P prev w v = true ->
    removes P prev (w ++ v) out ->
    exists out', out = w ++ out' /\ removes P (prev_after prev w) v out'.
Proof.
  induction w as [|c w IH]; intros prev v out Hk H.
  - exists out. split; [reflexivity | exact H].
  - cbn [kept] in Hk. apply andb_prop in Hk as [Hc Hk].
    cbn [append] in H. rewrite prev_after_cons.
    inversion H as [|p c' s' o' H'|p s' o' HP H']; subst.
    + destruct (IH _ _ _ Hk H') as (o & -> & Hr).
      exists o. split; [reflexivity | exact Hr].
    + rewrite HP in Hc. discriminate Hc.
Qed.

(** A kept stretch between two others. *)
Lemma removes_around (u w v : string) (prev : option ascii) (out : string) :
  kept P (prev_after prev u) w v = true ->
  removes P prev (u ++ w ++ v) out ->
  exists before after,
    out = before ++ w ++ after /\
    strip_underscores before = strip_underscores u /\
    strip_underscores after = strip_underscores v.
Proof.
  intros Hk H.
  destruct (removes_prefix u _ _ _ H) as (b & o & -> & Hr & Hs).
  destruct (removes_kept w _ _ _ Hk Hr) as (a & -> & Ha).
  exists b, a. repeat split; [exact Hs|].
  apply (removes_strip _ _ _ Ha).
Qed.
End Removal.






Section ReachingStrip.
Variables (r : regex) (t : template).
Hypothesis rewrite_shape :
  forall prev s caps rest,
    match_at r prev s = Some (caps, rest) ->
    exists m,
      s = m ++ rest /\
      strip_underscores (expand t caps) = strip_underscores m /\
      length m = length (expand t caps) + 2.

End ReachingStrip.





(** * The emphasis substitution in the filter *)





(** * The two substitutions in either order *)

Section Many1Longest.
Variable R : Type.
Variables (cs : charset) (caps : captures) (k : cont R).
Hypothesis k_prev : forall p q s c, k p s c = k q s c.

Lemma many1_none_inv (s : string) :
  many1 cs s caps k = None ->
  forall g s' p, g <> "" -> all_in cs g = true -> s = g ++ s' ->
                 k p s' caps = None.
Proof.
  induction s as [|c s IH]; intros H g s' p Hne Hg E.
  - destruct g; [congruence | discriminate].
  - destruct g as [|d g]; [congruence|]. cbn [append] in E.
    injection E as E0 E. subst d.
    cbn [all_in] in Hg. apply andb_prop in Hg as [Hc Hg].
    cbn [many1] in H. rewrite Hc in H.
    destruct (many1 cs s caps k) eqn:E1; [discriminate|].
    destruct g as [|e g].
    + cbn [append] in E. subst s'. rewrite (k_prev p (Some c)). exact H.
    + apply (IH eq_refl (String e g) s' p);
        [discriminate | exact Hg | exact E].
Qed.

(** The repetition chosen is the longest after which the rest of the
    pattern matches. *)
Lemma many1_sound_longest (s : string) (r : R) :
  many1 cs s caps k = Some r ->
  exists g s' p,
    s = g ++ s' /\ g <> "" /\ all_in cs g = true /\
    k p s' caps = Some r /\
    forall g2 s2 p2, g2 <> "" -> all_in cs g2 = true -> s' = g2 ++ s2 ->
                     k p2 s2 caps = None.
Proof.
  induction s as [|c s IH]; cbn [many1]; [discriminate|].
  destruct (in_set cs c) eqn:Hc; [|discriminate].
  destruct (many1 cs s caps k) as [r0|] eqn:E.
  - intros [= <-].
    destruct (IH eq_refl) as (g & s' & p & -> & _ & Hg & Hk & Hmax).
    exists (String c g), s', p. cbn [append all_in]. rewrite Hc, Hg.
    split; [reflexivity|]. split; [discriminate|].
    split; [reflexivity|]. split; [exact Hk | exact Hmax].
  - intros Hk. exists (String c ""), s, (Some c). cbn [append all_in].
    rewrite Hc. split; [reflexivity|]. split; [discriminate|].
    split; [reflexivity|]. split; [exact Hk|].
    intros g2 s2 p2 H1 H2 H3. apply (many1_none_inv s E g2 s2 p2 H1 H2 H3).
Qed.
End Many1Longest.

Lemma closes_later_intro (s : string) :
  closes_later s = true ->
  exists g2 s2,
    g2 <> "" /\ all_in emphasis_set g2 = true /\ s = g2 ++ s2 /\
    emphasis_closes s2 = true.
Proof.
  induction s as [|c s IH]; cbn [closes_later]; [discriminate|]. intros H.
  apply andb_prop in H as [Hc H]. apply orb_prop in H as [H|H].
  - exists (String c ""), s. cbn [all_in append]. rewrite Hc.
    repeat split; [discriminate | exact H].
  - destruct (IH H) as (g2 & s2 & _ & Hg & -> & Hcl).
    exists (String c g2), s2. cbn [all_in append]. rewrite Hc, Hg.
    repeat split; [discriminate | exact Hcl].
Qed.

(** What a match of the emphasis pattern is. *)
Lemma emphasis_match_exact (prev : option ascii) (s : string)
      (caps : captures) (rest : string) :
  match_at emphasis_re prev s = Some (caps, rest) ->
  exists g t,
    s = "__" ++ g ++ "__" ++ String t rest /\
    word_before prev = false /\ g <> "" /\
    all_in emphasis_set g = true /\ in_set emphasis_end t = true /\
    closes_later ("__" ++ String t rest) = false /\
    expand emphasis_repl caps = "_" ++ g ++ "_" ++ String t "".
Proof.
  intros H.
  destruct (startswith "__" s) eqn:Hs;
    [|rewrite (emphasis_needs_underscores _ _ Hs) in H; discriminate].
  apply startswith_split in Hs as [s0 ->].
  rewrite emphasis_match_unfold in H.
  destruct (word_before prev); [discriminate|].
  apply many1_sound_longest in H
    as (g & s1 & p & -> & Hne & Hg & Hk & Hmax); [|reflexivity].
  unfold emphasis_tail in Hk.
  destruct (emphasis_closes s1) eqn:Hc; [|discriminate].
  apply emphasis_closes_split in Hc as (t & rest' & -> & Ht).
  simpl in Hk. injection Hk as <- <-.
  exists g, t. split; [reflexivity|]. split; [reflexivity|].
  split; [exact Hne|]. split; [exact Hg|]. split; [exact Ht|]. split.
  - destruct (closes_later ("__" ++ String t rest')) eqn:Hl; [|reflexivity].
    apply closes_later_intro in Hl as (g2 & s2 & H1 & H2 & H3 & H4).
    specialize (Hmax g2 s2 None H1 H2 H3). unfold emphasis_tail in Hmax.
    rewrite H4 in Hmax.
    apply emphasis_closes_split in H4 as (t2 & r2 & -> & _).
    discriminate Hmax.
  - change (String "_" (String "_" (String t rest')))
      with ("__" ++ String t rest').
    rewrite take_matched. reflexivity.
Qed.

(** A token of the emphasis pattern is matched. *)
Lemma emphasis_match_token (prev : option ascii) (g : string) (t : ascii)
      (rest : string) :
  word_before prev = false -> g <> "" -> all_in emphasis_set g = true ->
  in_set emphasis_end t = true ->
  closes_later ("__" ++ String t rest) = false ->
  exists caps,
    match_at emphasis_re prev ("__" ++ g ++ "__" ++ String t rest) =
    Some (caps, rest) /\
    expand emphasis_repl caps = "_" ++ g ++ "_" ++ String t "".
Proof.
  intros Hp Hne Hg Ht Hl.
  apply emphasis_match_complete; try assumption.
  apply closes_later_longest, Hl.
Qed.

(** What a match of the link pattern is. *)
Lemma link_match_token (prev : option ascii) (g rest : string) :
  g <> "" -> all_in link_set g = true ->
  match_at link_re prev ("(__" ++ g ++ "__)" ++ rest) =
  Some ([(1, g)]%list, rest).
Proof.
  intros Hne Hg.
  unfold match_at, link_re, seq. cbn [fold_right rmatch append].
  change (("(" =? "(")%char) with true.
  change (("_" =? "_")%char) with true. cbv iota.
  apply many1_longest; try assumption.
  - intros p. cbn [append]. change (("_" =? "_")%char) with true.
    change ((")" =? ")")%char) with true. cbv iota.
    change (String "_" (String "_" (String ")" rest))) with ("__)" ++ rest).
    rewrite take_matched. reflexivity.
  - intros g2 s2 p Hne2 Hg2 E.
    destruct g2 as [|a [|b [|c g3]]]; [congruence| | |]; cbn [append] in E.
    + injection E as <- <-. reflexivity.
    + injection E as <- <- <-. reflexivity.
    + injection E as <- <- <- E. cbn [all_in] in Hg2.
      rewrite !andb_true_iff in Hg2. destruct Hg2 as (_ & _ & Hc & _).
      discriminate Hc.
Qed.

Lemma link_match_exact (prev : option ascii) (s : string) (caps : captures)
      (rest : string) :
  match_at link_re prev s = Some (caps, rest) ->
  exists g,
    s = "(__" ++ g ++ "__)" ++ rest /\ g <> "" /\
    all_in link_set g = true /\ caps = [(1, g)]%list.
Proof.
  intros H. destruct (link_match_sound _ _ _ _ H) as (g & -> & Hne & Hg & _).
  exists g. rewrite (link_match_token prev g rest Hne Hg) in H.
  injection H as <-. repeat split; assumption.
Qed.

Lemma link_scan_sub_link (p : option ascii) (s : string) :
  sub_scan link_re link_repl 0 p s = sub_link s.
Proof. apply link_scan_prev. Qed.

(** The link substitution at a token. *)
Lemma link_scan_token (p : option ascii) (g v : string) :
  g <> "" -> all_in link_set g = true ->
  sub_scan link_re link_repl 0 p ("(__" ++ g ++ "__)" ++ v) =
  "(_" ++ g ++ "_)" ++ sub_link v.
Proof.
  intros Hne Hg. rewrite link_scan_sub_link.
  apply (sub_link_rewrites_token_aux "" g v eq_refl Hne Hg).
Qed.

(** The link substitution passes over text without an open parenthesis. *)
Lemma link_scan_pass (p : option ascii) (u v : string) :
  str_in "(" u = false ->
  sub_scan link_re link_repl 0 p (u ++ v) = u ++ sub_link v.
Proof.
  intros H.
  rewrite (sub_scan_prefix link_re link_repl "(__" link_needs_paren u p v
             (no_paren_start u v H)).
  f_equal. apply link_scan_prev.
Qed.

Lemma link_scan_cons (p : option ascii) (c : ascii) (x : string) :
  c <> "("%char ->
  sub_scan link_re link_repl 0 p (String c x) = String c (sub_link x).
Proof.
  intros Hc. apply (link_scan_pass p (String c "") x).
  cbn [str_in startswith]. rewrite andb_true_r, orb_false_r.
  apply Ascii.eqb_neq. congruence.
Qed.

(** The link substitution keeps the first character. *)
Lemma link_scan_first (p : option ascii) (c : ascii) (x : string) :
  exists y, sub_scan link_re link_repl 0 p (String c x) = String c y.
Proof.
  destruct (match_at link_re p (String c x)) as [[caps rest]|] eqn:M.
  - destruct (link_match_exact _ _ _ _ M) as (g & E & Hne & Hg & _).
    rewrite E, (link_scan_token p g rest Hne Hg).
    cbn [append] in E |- *. injection E as -> _. eexists. reflexivity.
  - rewrite (sub_scan_nomatch link_re link_repl p c x M).
    eexists. reflexivity.
Qed.

(** Text without an open parenthesis at the start of the result of the
    link substitution was there before. *)
Lemma link_scan_pullback (u : string) :
  forall p x r,
    str_in "(" u = false ->
    sub_scan link_re link_repl 0 p x = u ++ r ->
    exists r0, x = u ++ r0 /\ sub_link r0 = r.
Proof.
  induction u as [|c u IH]; intros p x r Hu E.
  - exists x. split; [reflexivity|]. cbn [append] in E. rewrite <- E.
    symmetry. apply link_scan_sub_link.
  - apply str_in_cons in Hu as [Hc Hu].
    cbn [startswith] in Hc. rewrite andb_true_r in Hc.
    apply Ascii.eqb_neq in Hc.
    destruct x as [|d x]; [discriminate E|].
    destruct (link_scan_first p d x) as [y Ey].
    rewrite Ey in E. cbn [append] in E. injection E as -> E.
    rewrite link_scan_cons in Ey by congruence. injection Ey as <-.
    destruct (IH None x r Hu E) as (r0 & -> & Hr).
    exists r0. split; [reflexivity | exact Hr].
Qed.

Lemma emphasis_closes_cons_false (a : ascii) (y : string) :
  (a =? "_")%char = false -> emphasis_closes (String a y) = false.
Proof.
  intros H. destruct y as [|b [|t y]]; cbn [emphasis_closes];
    try reflexivity. rewrite H. reflexivity.
Qed.

Lemma emphasis_closes_cons2_false (a b : ascii) (y : string) :
  (b =? "_")%char = false -> emphasis_closes (String a (String b y)) = false.
Proof.
  intros H. destruct y as [|t y]; cbn [emphasis_closes];
    try reflexivity. rewrite H, andb_false_r. reflexivity.
Qed.

Lemma sub_link_cons_underscore (x : string) :
  sub_link (String "_" x) = String "_" (sub_link x).
Proof. apply (link_scan_cons None "_" x). discriminate. Qed.

Lemma sub_link_first (c : ascii) (x : string) :
  exists y, sub_link (String c x) = String c y.
Proof. apply (link_scan_first None c x). Qed.

(** The link substitution changes nothing of what closes a group of the
    emphasis pattern. *)
Lemma emphasis_closes_link (x : string) :
  emphasis_closes (sub_link x) = emphasis_closes x.
Proof.
  destruct x as [|a x1]; [reflexivity|].
  destruct (a =? "_")%char eqn:Ha.
  - apply Ascii.eqb_eq in Ha as ->. rewrite sub_link_cons_underscore.
    destruct x1 as [|b x2]; [reflexivity|].
    destruct (b =? "_")%char eqn:Hb.
    + apply Ascii.eqb_eq in Hb as ->. rewrite sub_link_cons_underscore.
      destruct x2 as [|t x3]; [reflexivity|].
      destruct (sub_link_first t x3) as [y ->]. reflexivity.
    + destruct (sub_link_first b x2) as [y ->].
      rewrite !emphasis_closes_cons2_false by exact Hb. reflexivity.
  - destruct (sub_link_first a x1) as [y ->].
    rewrite !emphasis_closes_cons_false by exact Ha. reflexivity.
Qed.

Lemma closes_later_link (x : string) :
  closes_later (sub_link x) = closes_later x.
Proof.
  induction x as [|c x IH]; [reflexivity|].
  destruct (in_set emphasis_set c) eqn:Hc.
  - assert (Hp : c <> "("%char) by (intros ->; discriminate Hc).
    change (sub_link (String c x))
      with (sub_scan link_re link_repl 0 None (String c x)).
    rewrite (link_scan_cons None c x Hp). cbn [closes_later].
    rewrite IH, emphasis_closes_link. reflexivity.
  - destruct (sub_link_first c x) as [y ->]. cbn [closes_later].
    rewrite Hc. reflexivity.
Qed.

Lemma link_groups_plain_tail (c : ascii) (s : string) :
  link_groups_plain (String c s) = true -> link_groups_plain s = true.
Proof. cbn [link_groups_plain]. intros H. apply andb_prop in H. apply H. Qed.

Lemma link_groups_plain_suffix (u v : string) :
  link_groups_plain (u ++ v) = true -> link_groups_plain v = true.
Proof.
  induction u as [|c u IH]; intros H; [exact H|].
  apply IH, (link_groups_plain_tail c), H.
Qed.

Lemma link_groups_plain_head (g rest : string) :
  link_groups_plain ("(__" ++ g ++ "__)" ++ rest) = true ->
  g <> "" -> all_in link_set g = true ->
  str_in "__" g = false.
Proof.
  intros H Hne Hg.
  change ("(__" ++ g ++ "__)" ++ rest)
    with (String "(" ("__" ++ g ++ "__)" ++ rest)) in H.
  cbn [link_groups_plain] in H.
  change (String "(" ("__" ++ g ++ "__)" ++ rest))
    with ("(__" ++ g ++ "__)" ++ rest) in H.
  rewrite (link_match_token None g rest Hne Hg) in H.
  apply andb_prop in H as [H _]. apply negb_true_iff in H. exact H.
Qed.

Lemma closing_no_paren (t : ascii) :
  in_set emphasis_end t = true ->
  str_in "(" (String "_" (String "_" (String t ""))) = false.
Proof.
  intros Ht. cbn [str_in startswith].
  destruct (Ascii.eqb_spec "(" t) as [<-|]; [discriminate Ht | reflexivity].
Qed.

Lemma emphasis_token_no_paren (g : string) (t : ascii) :
  all_in emphasis_set g = true -> in_set emphasis_end t = true ->
  str_in "(" ("__" ++ g ++ "__" ++ String t "") = false.
Proof.
  intros Hg Ht.
  change ("__" ++ g ++ "__" ++ String t "")
    with ("__" ++ (g ++ String "_" (String "_" (String t "")))).
  rewrite 2!str_in_char_append.
  rewrite (all_in_excludes emphasis_set "(" g Hg eq_refl).
  rewrite (closing_no_paren t Ht). reflexivity.
Qed.

(** The link substitution changes no match of the emphasis pattern at the
    start of the text. *)
Lemma emphasis_match_after_link_some (p : option ascii) (x : string)
      (caps : captures) (rest : string) :
  match_at emphasis_re p x = Some (caps, rest) ->
  exists m caps',
    x = m ++ rest /\ m <> "" /\ sub_link x = m ++ sub_link rest /\
    match_at emphasis_re p (m ++ sub_link rest) =
    Some (caps', sub_link rest) /\
    expand emphasis_repl caps' = expand emphasis_repl caps /\
    str_in "(" (expand emphasis_repl caps) = false.
Proof.
  intros H.
  destruct (emphasis_match_exact _ _ _ _ H)
    as (g & t & -> & Hp & Hne & Hg & Ht & Hl & He).
  set (m := "__" ++ g ++ "__" ++ String t "").
  assert (Em : forall y, "__" ++ g ++ "__" ++ String t y = m ++ y).
  { intros y. unfold m. cbn [append]. rewrite append_assoc. reflexivity. }
  assert (Hm : str_in "(" m = false)
    by apply (emphasis_token_no_paren g t Hg Ht).
  assert (Hl' : closes_later ("__" ++ String t (sub_link rest)) = false).
  { assert (El : sub_link ("__" ++ String t rest) =
                 "__" ++ String t (sub_link rest)).
    { apply (link_scan_pass None (String "_" (String "_" (String t "")))
               rest).
      apply closing_no_paren, Ht. }
    rewrite <- El, closes_later_link. exact Hl. }
  destruct (emphasis_match_token p g t (sub_link rest) Hp Hne Hg Ht Hl')
    as (caps' & Hm' & He').
  exists m, caps'. rewrite <- !Em.
  split; [reflexivity|]. split; [discriminate|].
  split; [rewrite !Em; apply (link_scan_pass None m rest Hm)|].
  split; [exact Hm'|]. split; [congruence|].
  rewrite He. apply emphasis_replacement_no_paren; assumption.
Qed.

Lemma emphasis_match_after_link_none (p : option ascii) (x : string) :
  match_at emphasis_re p x = None ->
  match_at emphasis_re p (sub_link x) = None.
Proof.
  intros H.
  destruct (match_at emphasis_re p (sub_link x)) as [[caps r]|] eqn:M;
    [|reflexivity].
  exfalso.
  destruct (emphasis_match_after_link_some p _ caps r M)
    as (m & _ & Em & _ & _ & _ & _ & _).
  destruct (emphasis_match_exact _ _ _ _ M)
    as (g & t & E & Hp & Hne & Hg & Ht & Hl & _).
  set (m0 := "__" ++ g ++ "__" ++ String t "").
  assert (E0 : forall y, "__" ++ g ++ "__" ++ String t y = m0 ++ y).
  { intros y. unfold m0. cbn [append]. rewrite append_assoc. reflexivity. }
  rewrite E0 in E.
  destruct (link_scan_pullback m0 None x r
              (emphasis_token_no_paren g t Hg Ht) E) as (r0 & -> & Hr).
  assert (Hl0 : closes_later ("__" ++ String t r0) = false).
  { rewrite <- (closes_later_link ("__" ++ String t r0)).
    change (sub_link ("__" ++ String t r0))
      with (sub_scan link_re link_repl 0 None
              (String "_" (String "_" (String t "")) ++ r0)).
    rewrite link_scan_pass; [cbn [append]; rewrite Hr; exact Hl|].
    apply closing_no_paren, Ht. }
  destruct (emphasis_match_token p g t r0 Hp Hne Hg Ht Hl0)
    as (caps0 & Hm0 & _).
  rewrite E0 in Hm0. rewrite Hm0 in H. discriminate H.
Qed.

(** ** Texts and what is left of them without some underscores *)

Lemma thins_keep_app (u s out : string) :
  thins s out -> thins (u ++ s) (u ++ out).
Proof.
  intros H. induction u as [|c u IH]; [exact H|].
  cbn [append]. apply thins_keep, IH.
Qed.

Lemma thins_length (y o : string) :
  thins y o -> length o <= length y.
Proof. induction 1; cbn [length]; lia. Qed.

Lemma thins_all_in (cs : charset) (y o : string) :
  in_set cs "_" = true -> thins y o ->
  all_in cs o = true -> all_in cs y = true.
Proof.
  intros Hu H. induction H as [|c s out _ IH|s out _ IH]; intros Ho.
  - reflexivity.
  - cbn [all_in] in Ho |- *. apply andb_prop in Ho as [Hc Ho].
    rewrite Hc, (IH Ho). reflexivity.
  - cbn [all_in]. rewrite Hu, (IH Ho). reflexivity.
Qed.

Lemma thins_split_at (y out : string) :
  thins y out ->
  forall o c r,
    out = o ++ String c r -> c <> "_"%char ->
    exists y1 y2, y = y1 ++ String c y2 /\ thins y1 o.
Proof.
  induction 1 as [|d s out H IH|s out H IH]; intros o c r E Hc.
  - destruct o; discriminate E.
  - destruct o as [|e o]; cbn [append] in E.
    + injection E as -> _. exists "", s. split; [reflexivity|].
      apply thins_nil.
    + injection E as -> E. destruct (IH o c r E Hc) as (y1 & y2 & -> & Hy).
      exists (String e y1), y2. split; [reflexivity|].
      apply thins_keep, Hy.
  - destruct (IH o c r E Hc) as (y1 & y2 & -> & Hy).
    exists (String "_" y1), y2. split; [reflexivity|].
    apply thins_drop, Hy.
Qed.

Lemma underscores_add (a b : nat) :
  underscores (a + b) = underscores a ++ underscores b.
Proof.
  induction a as [|a IH]; [reflexivity|].
  cbn [Nat.add underscores append]. rewrite IH. reflexivity.
Qed.

Lemma thins_underscores (y out : string) :
  thins y out ->
  forall k, out = underscores k ->
            exists k2, k <= k2 /\ y = underscores k2.
Proof.
  induction 1 as [|d s out H IH|s out H IH]; intros k E.
  - exists 0. destruct k; [split; [lia | reflexivity] | discriminate E].
  - destruct k as [|k]; [discriminate E|]. cbn [underscores] in E.
    injection E as -> E. destruct (IH k E) as (k2 & Hk & ->).
    exists (S k2). split; [lia | reflexivity].
  - destruct (IH k E) as (k2 & Hk & ->).
    exists (S k2). split; [lia | reflexivity].
Qed.

(** Underscores at the end were there before. *)
Lemma thins_ends (y out : string) :
  thins y out ->
  forall o k, out = o ++ underscores k ->
              exists y0, y = y0 ++ underscores k.
Proof.
  induction 1 as [|d s out H IH|s out H IH]; intros o k E.
  - destruct o; [|discriminate E]. destruct k; [|discriminate E].
    exists "". reflexivity.
  - destruct o as [|e o]; cbn [append] in E.
    + destruct (thins_underscores _ _ (@thins_keep d s out H) k E)
        as (k2 & Hk & ->).
      exists (underscores (k2 - k)). rewrite <- underscores_add.
      f_equal. lia.
    + injection E as -> E. destruct (IH o k E) as (y0 & ->).
      exists (String e y0). reflexivity.
  - destruct (IH o k E) as (y0 & ->).
    exists (String "_" y0). reflexivity.
Qed.

(** An underscore at the start was there before. *)
Lemma thins_starts (y o : string) :
  thins y (String "_" o) ->
  exists y', y = String "_" y' /\ (thins y' o \/ thins y' (String "_" o)).
Proof.
  intros H. inversion H as [|d s out H'|s out H']; subst.
  - exists s. split; [reflexivity | left; exact H'].
  - exists s. split; [reflexivity | right; exact H'].
Qed.

Lemma thins_starts_two (y o : string) :
  thins y ("__" ++ o) -> exists y', y = "__" ++ y'.
Proof.
  intros H. apply thins_starts in H as (y1 & -> & [H|H]).
  - apply thins_starts in H as (y2 & -> & _). exists y2. reflexivity.
  - apply thins_starts in H as (y2 & -> & _). exists y2. reflexivity.
Qed.

(** A token of the link pattern that is there after underscores were
    removed was there before. *)
Lemma link_token_before_thinning (y h r : string) :
  thins y ("__" ++ h ++ "__)" ++ r) ->
  h <> "" -> all_in link_set h = true ->
  exists g r',
    y = "__" ++ g ++ "__)" ++ r' /\ g <> "" /\ all_in link_set g = true.
Proof.
  intros H Hne Hh.
  assert (E : "__" ++ h ++ "__)" ++ r = ("__" ++ h ++ "__") ++ String ")" r).
  { cbn [append]. do 2 f_equal. rewrite append_assoc. reflexivity. }
  destruct (thins_split_at _ _ H _ ")"%char r E) as (y1 & y2 & -> & Hy);
    [discriminate|].
  assert (Hall : all_in link_set y1 = true).
  { apply (thins_all_in link_set _ _ eq_refl Hy).
    change ("__" ++ h ++ "__") with ("__" ++ (h ++ "__")).
    rewrite !all_in_append, Hh. reflexivity. }
  pose proof (thins_length _ _ Hy) as Hlen.
  change ("__" ++ h ++ "__") with ("__" ++ (h ++ "__")) in Hlen.
  rewrite !length_append in Hlen. cbn [length] in Hlen.
  assert (Hh1 : 1 <= length h) by (destruct h; [congruence | simpl; lia]).
  destruct (thins_starts_two _ _ Hy) as (ya & Ea).
  destruct (thins_ends _ _ Hy ("__" ++ h) 2) as (y0 & E0).
  { cbn [append underscores]. do 2 f_equal. }
  cbn [underscores] in E0.
  assert (Es : "__" ++ ya = y0 ++ "__") by congruence.
  destruct (append_split "__" ya y0 "__" Es) as [[e Ee] | (c & e & Ee)].
  - rewrite Ee, append_assoc in Es. apply append_inv_head in Es.
    exists e, y2. split; [|split].
    + rewrite Ea, Es. cbn [append]. do 2 f_equal.
      rewrite !append_assoc. reflexivity.
    + intros ->. rewrite Ea, Es in Hlen. cbn [append length] in Hlen. lia.
    + rewrite Ea, Es in Hall.
      change ("__" ++ e ++ "__") with ("__" ++ (e ++ "__")) in Hall.
      rewrite !all_in_append in Hall.
      apply andb_prop in Hall as [_ Hall].
      apply andb_prop in Hall as [Hall _]. exact Hall.
  - exfalso. apply (f_equal length) in Ee. rewrite length_append in Ee.
    cbn [length] in Ee. rewrite E0, length_append in Hlen.
    cbn [length] in Hlen. lia.
Qed.

(** The emphasis substitution removes underscores only. *)
Lemma emphasis_scan_thins (n : nat) :
  forall s p, length s <= n ->
    thins s (sub_scan emphasis_re emphasis_repl 0 p s).
Proof.
  induction n as [|n IH]; intros s p Hn.
  - destruct s; [apply thins_nil | simpl in Hn; lia].
  - destruct s as [|c s]; [apply thins_nil|].
    destruct (match_at emphasis_re p (String c s)) as [[caps rest]|] eqn:E.
    + destruct (emphasis_match_sound _ _ _ _ E)
        as (_ & g & t & Es & Hne & Hg & Ht & He).
      set (m := "__" ++ g ++ "__" ++ String t "").
      assert (Em : String c s = m ++ rest)
        by (rewrite Es; unfold m; cbn [append]; rewrite append_assoc;
            reflexivity).
      rewrite Em in E |- *.
      rewrite (sub_scan_match emphasis_re emphasis_repl p m rest caps);
        [|discriminate | exact E].
      rewrite He. unfold m. cbn [append].
      apply thins_drop, thins_keep. rewrite !append_assoc.
      apply thins_keep_app. cbn [append].
      apply thins_drop, thins_keep, thins_keep.
      apply IH. apply (f_equal length) in Em.
      rewrite length_append in Em. unfold m in Em. cbn [append length] in Em.
      simpl in Hn. lia.
    + rewrite (sub_scan_nomatch emphasis_re emphasis_repl p c s E).
      apply thins_keep, IH. simpl in Hn. lia.
Qed.

(** Where the link pattern does not match, it does not match after the
    emphasis substitution either. *)
Lemma link_head_after_emphasis (p q : option ascii) (c : ascii)
      (s : string) :
  match_at link_re q (String c s) = None ->
  match_at link_re q
    (String c (sub_scan emphasis_re emphasis_repl 0 p s)) = None.
Proof.
  intros H.
  destruct (match_at link_re q
              (String c (sub_scan emphasis_re emphasis_repl 0 p s)))
    as [[caps r]|] eqn:M; [|reflexivity].
  exfalso.
  destruct (link_match_exact _ _ _ _ M) as (h & E & Hne & Hh & _).
  cbn [append] in E. injection E as -> E.
  pose proof (emphasis_scan_thins _ s p (le_n _)) as Ht.
  rewrite E in Ht.
  change (String "_" (String "_" (h ++ "__)" ++ r)))
    with ("__" ++ h ++ "__)" ++ r) in Ht.
  destruct (link_token_before_thinning _ _ _ Ht Hne Hh)
    as (g & r' & -> & Hg1 & Hg2).
  change (String "(" ("__" ++ g ++ "__)" ++ r'))
    with ("(__" ++ g ++ "__)" ++ r') in H.
  rewrite (link_match_token q g r' Hg1 Hg2) in H. discriminate H.
Qed.

(** ** The emphasis substitution inside a token of the link pattern *)

Lemma string_snoc (s : string) :
  s <> "" -> exists s0 l, s = s0 ++ String l "".
Proof.
  induction s as [|c s IH]; [congruence|]. intros _.
  destruct s as [|d s].
  - exists "", c. reflexivity.
  - destruct IH as (s0 & l & E); [discriminate|].
    exists (String c s0), l. cbn [append]. rewrite <- E. reflexivity.
Qed.

Lemma snoc_inj (a b : string) (x y : ascii) :
  a ++ String x "" = b ++ String y "" -> a = b /\ x = y.
Proof.
  revert b. induction a as [|c a IH]; intros b E.
  - destruct b as [|d [|e b]]; cbn [append] in E.
    + injection E as ->. split; reflexivity.
    + discriminate E.
    + discriminate E.
  - destruct b as [|d b]; cbn [append] in E.
    + destruct a; discriminate E.
    + injection E as -> E. destruct (IH b E) as [-> ->].
      split; reflexivity.
Qed.

Lemma starts_in_snoc (ga : string) (l : ascii) (w : string) :
  str_in "__" (ga ++ String l "") = false ->
  starts_in "__" ga (String l w) = false.
Proof.
  induction ga as [|c ga IH]; intros H; [reflexivity|].
  cbn [append] in H. apply str_in_cons in H as [H1 H2].
  cbn [starts_in]. rewrite (IH H2), orb_false_r.
  destruct ga as [|d ga]; cbn [append startswith] in H1 |- *; exact H1.
Qed.

Lemma run_unique (cs : charset) (c : ascii) (a : string) :
  forall b x y,
    all_in cs a = true -> all_in cs b = true -> in_set cs c = false ->
    a ++ String c x = b ++ String c y -> a = b /\ x = y.
Proof.
  induction a as [|e a IH]; intros b x y Ha Hb Hc E.
  - destruct b as [|d b]; cbn [append] in E.
    + injection E as ->. split; reflexivity.
    + injection E as -> _. cbn [all_in] in Hb. rewrite Hc in Hb.
      discriminate Hb.
  - cbn [all_in] in Ha. apply andb_prop in Ha as [He Ha].
    destruct b as [|d b]; cbn [append] in E.
    + injection E as -> _. rewrite Hc in He. discriminate He.
    + injection E as -> E. cbn [all_in] in Hb.
      apply andb_prop in Hb as [_ Hb].
      destruct (IH b x y Ha Hb Hc E) as [-> ->]. split; reflexivity.
Qed.

(** A match of the emphasis pattern has no close parenthesis among its
    first five characters. *)
Lemma emphasis_no_match_short (q : option ascii) (z v : string) :
  length z <= 4 ->
  match_at emphasis_re q (z ++ String ")" v) = None.
Proof.
  intros Hz.
  destruct (match_at emphasis_re q (z ++ String ")" v)) as [[caps r]|] eqn:M;
    [|reflexivity].
  exfalso.
  destruct (emphasis_match_sound _ _ _ _ M)
    as (_ & g & t & E & Hne & Hg & _ & _).
  destruct g as [|x g]; [congruence|].
  cbn [all_in] in Hg. apply andb_prop in Hg as [Hx Hg].
  destruct z as [|a [|b [|c [|d [|e z]]]]]; cbn [append] in E;
    [discriminate E | discriminate E | | | | simpl in Hz; lia].
  - injection E as _ _ Ex _. subst x. discriminate Hx.
  - destruct g as [|y g]; cbn [append] in E; [discriminate E|].
    injection E as _ _ _ Ey _. subst y.
    cbn [all_in] in Hg. apply andb_prop in Hg as [Hy _]. discriminate Hy.
  - destruct g as [|y [|y2 g]]; cbn [append] in E;
      [discriminate E | discriminate E |].
    injection E as _ _ _ _ Ey _. subst y2.
    cbn [all_in] in Hg. apply andb_prop in Hg as [_ Hg].
    apply andb_prop in Hg as [Hy _]. discriminate Hy.
Qed.

Lemma emphasis_scan_short (z : string) :
  forall q v,
    length z <= 4 ->
    sub_scan emphasis_re emphasis_repl 0 q (z ++ String ")" v) =
    z ++ String ")" (sub_scan emphasis_re emphasis_repl 0 (Some ")"%char) v).
Proof.
  induction z as [|c z IH]; intros q v Hz.
  - cbn [append].
    apply (sub_scan_nomatch emphasis_re emphasis_repl q ")" v).
    apply (emphasis_no_match_short q "" v). simpl. lia.
  - cbn [append].
    rewrite (sub_scan_nomatch emphasis_re emphasis_repl q c
               (z ++ String ")" v)
               (emphasis_no_match_short q (String c z) v Hz)).
    rewrite IH by (simpl in Hz; lia). reflexivity.
Qed.

(** The emphasis substitution passes over a group without [__] and up to
    three characters that come before a close parenthesis. *)
Lemma emphasis_scan_group_tail (q : option ascii) (g z v : string) :
  g <> "" -> str_in "__" g = false -> length z <= 3 ->
  sub_scan emphasis_re emphasis_repl 0 q (g ++ z ++ String ")" v) =
  g ++ z ++ String ")" (sub_scan emphasis_re emphasis_repl 0 (Some ")"%char) v).
Proof.
  intros Hne Hs Hz. destruct (string_snoc g Hne) as (ga & l & ->).
  rewrite !append_assoc.
  change (String l "" ++ z ++ String ")" v)
    with (String l (z ++ String ")" v)).
  rewrite (@sub_scan_prefix emphasis_re emphasis_repl "__"
             emphasis_needs_underscores ga q _ (starts_in_snoc ga l _ Hs)).
  change (String l (z ++ String ")" v)) with (String l z ++ String ")" v).
  rewrite emphasis_scan_short by (simpl; lia). reflexivity.
Qed.

(** A token of the link pattern whose group the emphasis pattern takes. *)
Lemma emphasis_scan_link_token_match (p : option ascii) (g v : string) :
  g <> "" -> all_in emphasis_set g = true ->
  sub_scan emphasis_re emphasis_repl 0 p ("(__" ++ g ++ "__)" ++ v) =
  "(_" ++ g ++ "_)" ++
  sub_scan emphasis_re emphasis_repl 0 (Some ")"%char) v.
Proof.
  intros Hne Hg.
  change ("(__" ++ g ++ "__)" ++ v)
    with (String "(" ("__" ++ g ++ "__" ++ String ")" v)).
  rewrite sub_scan_nomatch
    by (apply emphasis_needs_underscores; reflexivity).
  assert (Hl : closes_later ("__" ++ String ")" v) = false)
    by (apply closes_later_not_newline; [reflexivity | discriminate]).
  destruct (emphasis_match_token (Some "("%char) g ")" v eq_refl Hne Hg
              eq_refl Hl) as (caps & M & He).
  set (m := "__" ++ g ++ "__" ++ String ")" "").
  assert (Em : "__" ++ g ++ "__" ++ String ")" v = m ++ v)
    by (unfold m; cbn [append]; rewrite append_assoc; reflexivity).
  rewrite Em in M |- *.
  rewrite (sub_scan_match emphasis_re emphasis_repl _ m v caps);
    [|discriminate | exact M].
  rewrite He.
  assert (Hlast : prev_after (Some "("%char) m = Some ")"%char).
  { unfold prev_after, m. rewrite !last_char_append. reflexivity. }
  rewrite Hlast. cbn [append]. do 2 f_equal.
  rewrite append_assoc. reflexivity.
Qed.

(** A token of the link pattern whose group the emphasis pattern does not
    take. *)
Lemma emphasis_scan_link_token_skip (p : option ascii) (g v : string) :
  g <> "" -> str_in "__" g = false -> all_in emphasis_set g = false ->
  sub_scan emphasis_re emphasis_repl 0 p ("(__" ++ g ++ "__)" ++ v) =
  "(__" ++ g ++ "__)" ++
  sub_scan emphasis_re emphasis_repl 0 (Some ")"%char) v.
Proof.
  intros Hne Hs Hg.
  change ("(__" ++ g ++ "__)" ++ v)
    with (String "(" (String "_" (String "_" (g ++ "__" ++ String ")" v)))).
  rewrite sub_scan_nomatch
    by (apply emphasis_needs_underscores; reflexivity).
  assert (M : match_at emphasis_re (Some "("%char)
                (String "_" (String "_" (g ++ "__" ++ String ")" v))) =
              None).
  { destruct (match_at emphasis_re (Some "("%char)
                (String "_" (String "_" (g ++ "__" ++ String ")" v))))
      as [[caps r]|] eqn:M; [|reflexivity].
    exfalso.
    destruct (emphasis_match_sound _ _ _ _ M)
      as (_ & g' & t & E & Hne' & Hg' & Ht & _).
    cbn [append] in E. injection E as E.
    destruct (append_split g _ g' _ E) as [[e Ee] | (c & e & Ee)].
    - rewrite Ee, all_in_append in Hg'. apply andb_prop in Hg' as [Hg' _].
      congruence.
    - rewrite Ee, append_assoc in E. apply append_inv_head in E.
      cbn [append] in E. injection E as -> E.
      destruct e as [|e1 e]; cbn [append] in E.
      + injection E as E _. subst t. discriminate Ht.
      + injection E as -> _. rewrite Ee in Hs.
        change (g' ++ String "_" (String "_" e)) with (g' ++ "__" ++ e)
          in Hs.
        rewrite str_in_occurrence in Hs. discriminate Hs. }
  rewrite (sub_scan_nomatch emphasis_re emphasis_repl _ _ _ M).
  rewrite sub_scan_nomatch
    by (apply emphasis_needs_boundary; reflexivity).
  rewrite (emphasis_scan_group_tail (Some "_"%char) g "__" v Hne Hs)
    by (simpl; lia).
  reflexivity.
Qed.

(** A rewritten token of the link pattern in which the emphasis pattern
    finds no token of its own. *)
Lemma emphasis_scan_rewritten_skip (p : option ascii) (g v : string) :
  g <> "" -> str_in "__" g = false ->
  (forall h, h <> "" -> all_in emphasis_set h = true ->
             g <> "_" ++ h ++ "_") ->
  sub_scan emphasis_re emphasis_repl 0 p ("(_" ++ g ++ "_)" ++ v) =
  "(_" ++ g ++ "_)" ++
  sub_scan emphasis_re emphasis_repl 0 (Some ")"%char) v.
Proof.
  intros Hne Hs Hnn.
  change ("(_" ++ g ++ "_)" ++ v)
    with (String "(" (String "_" (g ++ "_" ++ String ")" v))).
  rewrite sub_scan_nomatch
    by (apply emphasis_needs_underscores; reflexivity).
  assert (M : match_at emphasis_re (Some "("%char)
                (String "_" (g ++ "_" ++ String ")" v)) = None).
  { destruct (match_at emphasis_re (Some "("%char)
                (String "_" (g ++ "_" ++ String ")" v)))
      as [[caps r]|] eqn:M; [|reflexivity].
    exfalso.
    destruct (emphasis_match_sound _ _ _ _ M)
      as (_ & g' & t & E & Hne' & Hg' & Ht & _).
    cbn [append] in E. injection E as E.
    destruct g as [|x g1]; [congruence|]. cbn [append] in E.
    injection E as -> E.
    change (g1 ++ String "_" (String ")" v))
      with (g1 ++ "_" ++ String ")" v) in E.
    rewrite <- append_assoc in E.
    destruct (append_split (g1 ++ "_") _ g' _ E)
      as [[e Ee] | (c & e & Ee)].
    - rewrite Ee in E. rewrite (append_assoc (g1 ++ "_") e) in E.
      apply append_inv_head in E.
      destruct e as [|y e]; cbn [append] in E; [discriminate E|].
      injection E as <- _. rewrite Ee, all_in_append in Hg'.
      apply andb_prop in Hg' as [_ Hg']. discriminate Hg'.
    - rewrite Ee, append_assoc in E. apply append_inv_head in E.
      cbn [append] in E. injection E as -> E.
      destruct e as [|e1 e]; cbn [append] in E; [discriminate E|].
      injection E as -> _.
      destruct e as [|e2 e].
      + change (g' ++ String "_" (String "_" ""))
          with (g' ++ "_" ++ String "_" "") in Ee.
        rewrite <- append_assoc in Ee.
        apply snoc_inj in Ee as [Ee _].
        apply (Hnn g' Hne' Hg'). rewrite Ee. reflexivity.
      + destruct (string_snoc (String e2 e)) as (e0 & l & El);
          [discriminate|].
        rewrite El in Ee.
        change (g' ++ String "_" (String "_" (e0 ++ String l "")))
          with (g' ++ "__" ++ e0 ++ String l "") in Ee.
        replace (g' ++ "__" ++ e0 ++ String l "")
          with ((g' ++ "__" ++ e0) ++ String l "") in Ee
          by (rewrite !append_assoc; reflexivity).
        apply snoc_inj in Ee as [Ee _]. rewrite Ee in Hs.
        change (String "_" (g' ++ "__" ++ e0))
          with (String "_" g' ++ "__" ++ e0) in Hs.
        rewrite str_in_occurrence in Hs. discriminate Hs. }
  rewrite (sub_scan_nomatch emphasis_re emphasis_repl _ _ _ M).
  rewrite (emphasis_scan_group_tail (Some "_"%char) g "_" v Hne Hs)
    by (simpl; lia).
  reflexivity.
Qed.

(** A rewritten token of the link pattern that is no token of the pattern
    any more. *)
Lemma sub_link_rewritten_skip (g v : string) :
  g <> "" -> all_in link_set g = true ->
  (forall h, h <> "" -> g <> "_" ++ h ++ "_") ->
  sub_link ("(_" ++ g ++ "_)" ++ v) = "(_" ++ g ++ "_)" ++ sub_link v.
Proof.
  intros Hne Hg Hnn.
  change ("(_" ++ g ++ "_)" ++ v)
    with (String "(" (String "_" (g ++ "_" ++ String ")" v))).
  assert (M : match_at link_re None
                (String "(" (String "_" (g ++ "_" ++ String ")" v))) = None).
  { destruct (match_at link_re None
                (String "(" (String "_" (g ++ "_" ++ String ")" v))))
      as [[caps r]|] eqn:M; [|reflexivity].
    exfalso.
    destruct (link_match_exact _ _ _ _ M) as (g2 & E & Hne2 & Hg2 & _).
    cbn [append] in E. injection E as E.
    destruct g as [|x g1]; [congruence|]. cbn [append] in E.
    injection E as -> E. cbn [all_in] in Hg.
    apply andb_prop in Hg as [_ Hg].
    change (g1 ++ String "_" (String ")" v))
      with (g1 ++ "_" ++ String ")" v) in E.
    change (g2 ++ String "_" (String "_" (String ")" r)))
      with (g2 ++ "__" ++ String ")" r) in E.
    rewrite <- !append_assoc in E.
    apply (run_unique link_set ")") in E as [E _];
      [| rewrite all_in_append, Hg; reflexivity
       | rewrite all_in_append, Hg2; reflexivity
       | reflexivity].
    change (g2 ++ "__") with (g2 ++ "_" ++ String "_" "") in E.
    rewrite <- append_assoc in E. apply snoc_inj in E as [E _].
    apply (Hnn g2 Hne2). rewrite E. reflexivity. }
  unfold sub_link, re_sub.
  rewrite (sub_scan_nomatch link_re link_repl _ _ _ M).
  change (String "_" (g ++ "_" ++ String ")" v))
    with ("_" ++ g ++ "_)" ++ v).
  rewrite <- (append_assoc g "_)" v), <- (append_assoc "_" (g ++ "_)") v).
  rewrite link_scan_pass.
  - rewrite !append_assoc. reflexivity.
  - rewrite 2!str_in_char_append.
    rewrite (all_in_excludes link_set "(" g Hg eq_refl). reflexivity.
Qed.

Lemma nested_or_not (g : string) :
  (exists h, h <> "" /\ g = "_" ++ h ++ "_") \/
  (forall h, h <> "" -> g <> "_" ++ h ++ "_").
Proof.
  destruct g as [|c g1]; [right; intros h _ E; discriminate E|].
  destruct (Ascii.eqb_spec c "_") as [->|Hc];
    [|right; intros h _ E; cbn [append] in E; injection E as E _;
      congruence].
  destruct g1 as [|d g2].
  { right. intros h _ E. cbn [append] in E. injection E as E.
    destruct h; discriminate E. }
  destruct (string_snoc (String d g2)) as (h & l & El); [discriminate|].
  rewrite El.
  destruct (Ascii.eqb_spec l "_") as [->|Hl].
  - destruct h as [|x h].
    + right. intros h' Hne' E. cbn [append] in E. injection E as E.
      apply (snoc_inj "" h') in E as [E _]. congruence.
    + left. exists (String x h). split; [discriminate | reflexivity].
  - right. intros h' _ E. cbn [append] in E. injection E as E.
    apply snoc_inj in E as [_ E]. congruence.
Qed.

(** Where no group of the link pattern holds [__], the two substitutions
    give the same in either order, whatever comes before the text. *)
Lemma substitutions_commute_aux (n : nat) :
  forall s p,
    length s <= n -> link_groups_plain s = true ->
    sub_link (sub_scan emphasis_re emphasis_repl 0 p s) =
    sub_scan emphasis_re emphasis_repl 0 p (sub_link s).
Proof.
  induction n as [|n IH]; intros s p Hn Hp.
  - destruct s; [reflexivity | simpl in Hn; lia].
  - destruct s as [|c s]; [reflexivity|].
    destruct (match_at link_re None (String c s)) as [[lcaps lrest]|] eqn:ML.
    + destruct (link_match_exact _ _ _ _ ML) as (g & E & Hne & Hg & _).
      rewrite E in Hp |- *.
      pose proof (link_groups_plain_head g lrest Hp Hne Hg) as Hs.
      assert (Hrest : link_groups_plain lrest = true).
      { apply (link_groups_plain_suffix ("(__" ++ g ++ "__)")).
        rewrite !append_assoc. exact Hp. }
      assert (Hlen : length lrest <= n).
      { rewrite E in Hn. cbn [append length] in Hn.
        rewrite length_append in Hn. cbn [length] in Hn. lia. }
      assert (IHr : forall q,
                 sub_link (sub_scan emphasis_re emphasis_repl 0 q lrest) =
                 sub_scan emphasis_re emphasis_repl 0 q (sub_link lrest))
        by (intros q; apply IH; assumption).
      rewrite <- (link_scan_sub_link None ("(__" ++ g ++ "__)" ++ lrest)).
      rewrite (link_scan_token None g lrest Hne Hg).
      destruct (all_in emphasis_set g) eqn:R.
      * rewrite (emphasis_scan_link_token_match p g _ Hne R).
        destruct (nested_or_not g) as [(h & Hh & Eg) | Hnn].
        -- assert (Hhl : all_in link_set h = true).
           { rewrite Eg in Hg.
             change ("_" ++ h ++ "_") with ("_" ++ (h ++ "_")) in Hg.
             rewrite !all_in_append in Hg.
             apply andb_prop in Hg as [_ Hg].
             apply andb_prop in Hg as [Hg _]. exact Hg. }
           assert (Hhe : all_in emphasis_set h = true).
           { rewrite Eg in R.
             change ("_" ++ h ++ "_") with ("_" ++ (h ++ "_")) in R.
             rewrite !all_in_append in R.
             apply andb_prop in R as [_ R].
             apply andb_prop in R as [R _]. exact R. }
           assert (Et : forall y, "(_" ++ g ++ "_)" ++ y =
                                  "(__" ++ h ++ "__)" ++ y).
           { intros y. rewrite Eg. cbn [append]. do 3 f_equal.
             rewrite !append_assoc. reflexivity. }
           rewrite !Et.
           rewrite <- (link_scan_sub_link None ("(__" ++ h ++ "__)" ++ _)).
           rewrite (link_scan_token None h _ Hh Hhl).
           rewrite (emphasis_scan_link_token_match p h _ Hh Hhe).
           rewrite IHr. reflexivity.
        -- rewrite (sub_link_rewritten_skip g _ Hne Hg Hnn).
           rewrite (emphasis_scan_rewritten_skip p g _ Hne Hs
                      (fun h Hh _ => Hnn h Hh)).
           rewrite IHr. reflexivity.
      * rewrite (emphasis_scan_link_token_skip p g _ Hne Hs R).
        rewrite <- (link_scan_sub_link None ("(__" ++ g ++ "__)" ++ _)).
        rewrite (link_scan_token None g _ Hne Hg).
        rewrite (emphasis_scan_rewritten_skip p g _ Hne Hs).
        -- rewrite IHr. reflexivity.
        -- intros h Hh Hhe Eg. rewrite Eg in R.
           change ("_" ++ h ++ "_") with ("_" ++ (h ++ "_")) in R.
           rewrite !all_in_append, Hhe in R. discriminate R.
    + destruct (match_at emphasis_re p (String c s)) as [[caps rest]|] eqn:MA.
      * destruct (emphasis_match_after_link_some p _ caps rest MA)
          as (m & caps' & Es & Hm & El & M' & He & Hnp).
        rewrite El. rewrite Es in MA |- *.
        rewrite (sub_scan_match emphasis_re emphasis_repl p m rest caps Hm
                   MA).
        rewrite (sub_scan_match emphasis_re emphasis_repl p m (sub_link rest)
                   caps' Hm M').
        rewrite He.
        rewrite <- (link_scan_sub_link None (expand emphasis_repl caps ++ _)).
        rewrite (link_scan_pass None _ _ Hnp). f_equal.
        apply IH.
        -- apply (f_equal length) in Es. rewrite length_append in Es.
           destruct m; [congruence|]. simpl in Es, Hn. lia.
        -- apply (link_groups_plain_suffix m). rewrite <- Es. exact Hp.
      * rewrite (sub_scan_nomatch emphasis_re emphasis_repl p c s MA).
        pose proof (emphasis_match_after_link_none p _ MA) as MA'.
        assert (El : sub_link (String c s) = String c (sub_link s)).
        { unfold sub_link at 1, re_sub.
          rewrite (sub_scan_nomatch link_re link_repl None c s ML).
          f_equal. apply link_scan_sub_link. }
        rewrite El in MA' |- *.
        rewrite (sub_scan_nomatch emphasis_re emphasis_repl p c _ MA').
        unfold sub_link at 1, re_sub.
        rewrite (sub_scan_nomatch link_re link_repl None c _
                   (link_head_after_emphasis (Some c) None c s ML)).
        f_equal. rewrite link_scan_sub_link. apply IH.
        -- simpl in Hn. lia.
        -- apply (link_groups_plain_tail c), Hp.
Qed.

(** C9, amended: the filter applies the emphasis substitution first and
    the link substitution to its result. The two substitutions give the
    same result in either order on every text in which no match of the
    link pattern, at whatever position, has [__] inside its group; the
    text [(__a__.b__)], on which the order matters, has such a match. *)
Theorem substitutions_commute_on_plain_link_groups :
  (forall s : string,
      fix_emphasis s = sub_link (sub_emphasis s) /\
      (link_groups_plain s = true ->
       sub_link (sub_emphasis s) = sub_emphasis (sub_link s))) /\
  link_groups_plain "(__a__.b__)" = false.
Proof.
  split; [|reflexivity].
  intros s. split; [apply fix_emphasis_eq|]. intros H.
  apply (substitutions_commute_aux (length s) s None (le_n _) H).
Qed.

Lemma substitutions_commute_on_plain_link_groups_witness :
  sub_link (sub_emphasis "(__a/b__) and __c__, (___d_e___).") =
  sub_emphasis (sub_link "(__a/b__) and __c__, (___d_e___).").
Proof.
  apply (proj2 (proj1 substitutions_commute_on_plain_link_groups
                  "(__a/b__) and __c__, (___d_e___).")).
  vm_compute. reflexivity.
Defined.
